(** * Image Filtering and Segmentation: the orchestration layer of [App]

    A shallow embedding of the React component of [src/src/App.tsx] and of
    its dark-mode variant [src/unnamed/part_000].  The component owns no
    pixel computation: it loads an image into a native matrix, dispatches on
    the selected technique to calls of the vision library, shows the result
    on a canvas and releases the matrices.  The vision library and the
    browser are therefore parameters of the development; what is modelled
    from the source is the order of the calls, their arguments, the guard,
    the error handling and the component state. *)

From stdpp Require Import base strings list gmap.
From Stdlib Require Import ZArith.

Local Open Scope string_scope.
Local Open Scope Z_scope.
Local Open Scope list_scope.

(** ** The environment: native matrices, library calls, events *)

(** A native matrix is owned by the library's heap and named by a handle. *)
Abbreviation handle := positive.

Record Mat := mkMat { rows : Z; cols : Z; mtype : Z; data : list Z }.

(** [new cv.Size(w, h)] is a plain value. *)
Record Size := mkSize { width : Z; height : Z }.

(** The calls of the [cv] namespace that the switch performs, with their
    arguments in source order. *)
Inductive CvCall : Type :=
| GaussianBlur (src dst : handle) (ksize : Size) (sigmaX sigmaY borderType : Z)
| medianBlur (src dst : handle) (ksize : Z)
| cvtColor (src dst : handle) (code : Z)
| Canny (src dst : handle) (threshold1 threshold2 apertureSize : Z) (L2gradient : bool)
| Laplacian (src dst : handle) (ddepth ksize scale delta borderType : Z)
| threshold (src dst : handle) (thresh maxval type : Z)
| getStructuringElement (shape : Z) (ksize : Size)
| morphologyEx (src dst : handle) (op : Z) (kernel : handle).

(** The anchor element that [downloadImage] builds. *)
Record Link := mkLink { href : string; download : string }.

(** Every effect of the component is recorded, in order, in a trace. *)
Inductive Event : Type :=
| EImread (src : string)
| ENewMat
| ECv (c : CvCall)
| EImshow (m : handle)
| EDelete (h : handle)
| EToDataURL
| EConsoleError (msg err : string)
| ESetIsProcessing (b : bool)
| ESetProcessedImage (v : option string)
| ESetSelectedImage (v : option string)
| ESetSelectedTechnique (v : string)
| ESetIsDarkMode (b : bool)
| EReadAsDataURL (file : string)
| ECreateElement (tag : string)
| EAppendChild (l : Link)
| EClick (l : Link)
| ERemoveChild (l : Link).

(** The events that enter the vision library. *)
Definition is_cv (e : Event) : bool :=
  match e with
  | EImread _ | ENewMat | ECv _ | EImshow _ | EDelete _ => true
  | _ => false
  end.

(** Completion of a JavaScript computation: a value, or a thrown error. *)
Inductive res (A : Type) : Type :=
| Ok (a : A)
| Throw (err : string).
Arguments Ok {A} a.
Arguments Throw {A} err.

(** The vision library: its constants and the outcome of each call.  The
    component fixes none of them. *)
Record OpenCV := {
  BORDER_DEFAULT : Z;
  COLOR_RGBA2GRAY : Z;
  CV_8U : Z;
  THRESH_BINARY : Z;
  THRESH_OTSU : Z;
  MORPH_RECT : Z;
  MORPH_OPEN : Z;
  (** [cv.imread(el)], for the image element whose [src] is given *)
  imread_sem : string -> res Mat;
  (** the matrix a call writes to its destination (for
      [getStructuringElement], the matrix it returns), given the heap *)
  call_sem : CvCall -> gmap handle Mat -> res Mat;
  (** [cv.imshow(canvas, mat)] *)
  imshow_sem : Mat -> res unit
}.

(** The browser: what a canvas showing a matrix serialises to, and the data
    URL a [FileReader] produces for a file. *)
Record Browser := {
  toDataURL_sem : option Mat -> res string;
  readAsDataURL_sem : string -> string
}.

(** What the component acts on besides its own state. *)
Record World := mkWorld {
  heap : gmap handle Mat;          (* live native matrices *)
  imageRef : option string;        (* the mounted <img>, by its src *)
  canvasRef : option (option Mat); (* the mounted <canvas> and what it shows *)
  readers : list string;           (* FileReaders in flight, by file *)
  trace : list Event
}.

Definition set_heap (h : gmap handle Mat) (w : World) : World :=
  mkWorld h (imageRef w) (canvasRef w) (readers w) (trace w).
Definition set_imageRef (r : option string) (w : World) : World :=
  mkWorld (heap w) r (canvasRef w) (readers w) (trace w).
Definition set_canvasRef (c : option (option Mat)) (w : World) : World :=
  mkWorld (heap w) (imageRef w) c (readers w) (trace w).
Definition set_readers (r : list string) (w : World) : World :=
  mkWorld (heap w) (imageRef w) (canvasRef w) r (trace w).
Definition log (e : Event) (w : World) : World :=
  mkWorld (heap w) (imageRef w) (canvasRef w) (readers w) (trace w ++ [e]).

(** The events an execution adds to the trace. *)
Definition events_since (w w' : World) : list Event :=
  drop (length (trace w)) (trace w').

(** JavaScript truthiness of a string and of [string | null]. *)
Definition truthy (s : string) : bool := negb (String.eqb s "").
Definition truthy_opt (o : option string) : bool :=
  match o with Some s => truthy s | None => false end.

(** ** A state and exception monad for event handlers *)

Definition M (St A : Type) : Type := St * World -> res A * (St * World).

Global Instance M_ret {St} : MRet (M St) := λ A a s, (Ok a, s).
Global Instance M_bind {St} : MBind (M St) := λ A B f m s,
  match m s with
  | (Ok a, s') => f a s'
  | (Throw e, s') => (Throw e, s')
  end.

Definition throw {St A} (e : string) : M St A := λ s, (Throw e, s).
Definition get_state {St} : M St St := λ s, (Ok (fst s), s).
Definition get_world {St} : M St World := λ s, (Ok (snd s), s).
Definition modify_state {St} (f : St -> St) : M St unit :=
  λ s, (Ok (), (f (fst s), snd s)).
Definition modify_world {St} (f : World -> World) : M St unit :=
  λ s, (Ok (), (fst s, f (snd s))).
Definition emit {St} (e : Event) : M St unit := modify_world (log e).
Definition lift_res {St A} (r : res A) : M St A := λ s, (r, s).

(** The events that running [m] from [s] adds. *)
Definition events {St A} (m : M St A) (s : St * World) : list Event :=
  events_since (snd s) (snd (snd (m s))).

(** [try { body } catch (error) { handler } finally { fin }] *)
Definition try_catch_finally {St} (body : M St unit)
    (handler : string -> M St unit) (fin : M St unit) : M St unit :=
  λ s,
    let '(r1, s1) := body s in
    let '(r2, s2) := match r1 with
                     | Ok a => (Ok a, s1)
                     | Throw e => handler e s1
                     end in
    let '(r3, s3) := fin s2 in
    match r3 with
    | Ok _ => (r2, s3)
    | Throw e => (Throw e, s3)
    end.

(** ** The library and browser operations the component uses *)

Section Operations.
Context (cv : OpenCV) (br : Browser).
Context {St : Type}.

(** The matrices a call is handed. *)
Definition operands (c : CvCall) : list handle :=
  match c with
  | GaussianBlur s d _ _ _ _ | medianBlur s d _ | cvtColor s d _
  | Canny s d _ _ _ _ | Laplacian s d _ _ _ _ _ | threshold s d _ _ _ => [s; d]
  | getStructuringElement _ _ => []
  | morphologyEx s d _ k => [s; d; k]
  end.

Definition destination (c : CvCall) : option handle :=
  match c with
  | GaussianBlur _ d _ _ _ _ | medianBlur _ d _ | cvtColor _ d _
  | Canny _ d _ _ _ _ | Laplacian _ d _ _ _ _ _ | threshold _ d _ _ _
  | morphologyEx _ d _ _ => Some d
  | getStructuringElement _ _ => None
  end.

Definition live (h : gmap handle Mat) (x : handle) : bool :=
  bool_decide (is_Some (h !! x)).

(** Allocate a native matrix holding [m]. *)
Definition alloc (m : Mat) : M St handle :=
  w ← get_world;
  let h := fresh (dom (heap w)) in
  modify_world (set_heap (<[h := m]> (heap w)));;
  mret h.

(** [cv.imread(imageRef.current)] *)
Definition cv_imread (el : string) : M St handle :=
  emit (EImread el);;
  m ← lift_res (imread_sem cv el);
  alloc m.

(** [new cv.Mat()] *)
Definition new_Mat : M St handle :=
  emit ENewMat;;
  alloc (mkMat 0 0 0 []).

(** A call of the [cv] namespace.  Handing over a deleted matrix throws;
    otherwise the library decides the outcome. *)
Definition cv_call (c : CvCall) : M St (option handle) :=
  emit (ECv c);;
  w ← get_world;
  if forallb (live (heap w)) (operands c) then
    m ← lift_res (call_sem cv c (heap w));
    match destination c with
    | Some d => modify_world (set_heap (<[d := m]> (heap w)));; mret None
    | None => h ← alloc m; mret (Some h)
    end
  else throw "BindingError".

(** A call whose result is written to its destination. *)
Definition cv_do (c : CvCall) : M St unit := cv_call c;; mret ().

(** [cv.getStructuringElement(shape, ksize)] returns a new matrix. *)
Definition cv_getStructuringElement (shape : Z) (ksize : Size) : M St handle :=
  r ← cv_call (getStructuringElement shape ksize);
  match r with
  | Some h => mret h
  | None => throw "TypeError"
  end.

(** [mat.delete()] *)
Definition Mat_delete (h : handle) : M St unit :=
  emit (EDelete h);;
  w ← get_world;
  if live (heap w) h then modify_world (set_heap (delete h (heap w)))
  else throw "BindingError".

(** [cv.imshow(canvasRef.current, mat)] *)
Definition cv_imshow (m : handle) : M St unit :=
  emit (EImshow m);;
  w ← get_world;
  match heap w !! m with
  | Some mat =>
      lift_res (imshow_sem cv mat);;
      modify_world (set_canvasRef (Some (Some mat)))
  | None => throw "BindingError"
  end.

(** [canvasRef.current.toDataURL()] *)
Definition canvas_toDataURL : M St string :=
  emit EToDataURL;;
  w ← get_world;
  match canvasRef w with
  | Some shown => lift_res (toDataURL_sem br shown)
  | None => throw "TypeError"
  end.

(** [console.error(msg, error)] *)
Definition console_error (msg err : string) : M St unit :=
  emit (EConsoleError msg err).
End Operations.

(** The handles of the first, second and third matrix allocated from a heap
    (in [processImage]: [img], [dst] and the structuring element). *)
Definition fresh1 (h : gmap handle Mat) : handle := fresh (dom h).
Definition fresh2 (h : gmap handle Mat) : handle := fresh ({[fresh1 h]} ∪ dom h).
Definition fresh3 (h : gmap handle Mat) : handle :=
  fresh ({[fresh2 h]} ∪ ({[fresh1 h]} ∪ dom h)).

(** The calls of the [cv] namespace in a trace, and the errors logged. *)
Definition cv_calls (evs : list Event) : list CvCall :=
  omap (λ e, match e with ECv c => Some c | _ => None end) evs.
Definition errors (evs : list Event) : list string :=
  omap (λ e, match e with EConsoleError _ err => Some err | _ => None end) evs.

(** ** The component of [src/src/App.tsx] *)

Module App.

(** The constant [TECHNIQUES]. *)
Module TECHNIQUES.
Module FILTERING.
Definition GAUSSIAN : string := "Gaussian Blur".
Definition MEDIAN : string := "Median Filter".
Definition CANNY : string := "Canny Edge Detection".
Definition LAPLACIAN : string := "Laplacian Spatial Filter".
(** [Object.values(TECHNIQUES.FILTERING)], in insertion order *)
Definition values : list string := [GAUSSIAN; MEDIAN; CANNY; LAPLACIAN].
End FILTERING.
Module SEGMENTATION.
Definition BINARY : string := "Binary Thresholding".
Definition OTSU : string := "Otsu's Thresholding".
Definition MORPHOLOGICAL : string := "Morphological Cleaning".
(** [Object.values(TECHNIQUES.SEGMENTATION)], in insertion order *)
Definition values : list string := [BINARY; OTSU; MORPHOLOGICAL].
End SEGMENTATION.
End TECHNIQUES.

(** The [useState] cells of the component. *)
Record AppState := mkApp {
  selectedImage : option string;
  processedImage : option string;
  selectedTechnique : string;
  isProcessing : bool
}.

Definition initial : AppState := mkApp None None "" false.

Definition setSelectedImage (v : option string) : M AppState unit :=
  emit (ESetSelectedImage v);;
  modify_state (λ s, mkApp v (processedImage s) (selectedTechnique s) (isProcessing s)).
Definition setProcessedImage (v : option string) : M AppState unit :=
  emit (ESetProcessedImage v);;
  modify_state (λ s, mkApp (selectedImage s) v (selectedTechnique s) (isProcessing s)).
Definition setSelectedTechnique (v : string) : M AppState unit :=
  emit (ESetSelectedTechnique v);;
  modify_state (λ s, mkApp (selectedImage s) (processedImage s) v (isProcessing s)).
Definition setIsProcessing (v : bool) : M AppState unit :=
  emit (ESetIsProcessing v);;
  modify_state (λ s, mkApp (selectedImage s) (processedImage s) (selectedTechnique s) v).

(** The [case] clauses of the switch in [processImage], in source order. *)
Inductive Case : Set :=
| CaseGaussian | CaseMedian | CaseCanny | CaseLaplacian
| CaseBinary | CaseOtsu | CaseMorphological.

Definition cases : list Case :=
  [CaseGaussian; CaseMedian; CaseCanny; CaseLaplacian;
   CaseBinary; CaseOtsu; CaseMorphological].

Definition case_label (c : Case) : string :=
  match c with
  | CaseGaussian => TECHNIQUES.FILTERING.GAUSSIAN
  | CaseMedian => TECHNIQUES.FILTERING.MEDIAN
  | CaseCanny => TECHNIQUES.FILTERING.CANNY
  | CaseLaplacian => TECHNIQUES.FILTERING.LAPLACIAN
  | CaseBinary => TECHNIQUES.SEGMENTATION.BINARY
  | CaseOtsu => TECHNIQUES.SEGMENTATION.OTSU
  | CaseMorphological => TECHNIQUES.SEGMENTATION.MORPHOLOGICAL
  end.

(** [switch (t)]: the first clause whose label is strictly equal to [t]. *)
Definition switch_on (t : string) : option Case :=
  List.find (λ c, String.eqb t (case_label c)) cases.

Section Handlers.
Context (cv : OpenCV) (br : Browser).

(** The statements of a clause, up to its [break]. *)
Definition case_body (c : Case) (img dst : handle) : M AppState unit :=
  match c with
  | CaseGaussian =>
      cv_do cv (GaussianBlur img dst (mkSize 5 5) 0 0 (BORDER_DEFAULT cv))
  | CaseMedian =>
      cv_do cv (medianBlur img dst 5)
  | CaseCanny =>
      cv_do cv (cvtColor img img (COLOR_RGBA2GRAY cv));;
      cv_do cv (Canny img dst 50 150 3 false)
  | CaseLaplacian =>
      cv_do cv (cvtColor img img (COLOR_RGBA2GRAY cv));;
      cv_do cv (Laplacian img dst (CV_8U cv) 1 1 0 (BORDER_DEFAULT cv))
  | CaseBinary =>
      cv_do cv (cvtColor img img (COLOR_RGBA2GRAY cv));;
      cv_do cv (threshold img dst 127 255 (THRESH_BINARY cv))
  | CaseOtsu =>
      cv_do cv (cvtColor img img (COLOR_RGBA2GRAY cv));;
      cv_do cv (threshold img dst 0 255 (THRESH_BINARY cv + THRESH_OTSU cv))
  | CaseMorphological =>
      cv_do cv (cvtColor img img (COLOR_RGBA2GRAY cv));;
      cv_do cv (threshold img dst 127 255 (THRESH_BINARY cv));;
      kernel ← cv_getStructuringElement cv (MORPH_RECT cv) (mkSize 5 5);
      cv_do cv (morphologyEx dst dst (MORPH_OPEN cv) kernel);;
      Mat_delete kernel
  end.

Definition dispatch (t : string) (img dst : handle) : M AppState unit :=
  match switch_on t with
  | Some c => case_body c img dst
  | None => mret ()
  end.

(** The block of the [try]. *)
Definition processImage_try (image : string) : M AppState unit :=
  st ← get_state;
  img ← cv_imread cv image;
  dst ← new_Mat;
  dispatch (selectedTechnique st) img dst;;
  cv_imshow cv dst;;
  url ← canvas_toDataURL br;
  setProcessedImage (Some url);;
  Mat_delete img;;
  Mat_delete dst.

(** The condition of the early [return]. *)
Definition guard_fails (st : AppState) (w : World) : bool :=
  negb (truthy_opt (selectedImage st)) || negb (truthy (selectedTechnique st))
  || negb (bool_decide (is_Some (imageRef w)))
  || negb (bool_decide (is_Some (canvasRef w))).

Definition processImage : M AppState unit :=
  st ← get_state;
  w ← get_world;
  match imageRef w with
  | Some image =>
      if guard_fails st w then mret ()
      else
        setIsProcessing true;;
        try_catch_finally
          (processImage_try image)
          (λ error, console_error "Error processing image:" error)
          (setIsProcessing false)
  | None => mret ()
  end.

Definition downloadImage : M AppState unit :=
  st ← get_state;
  if truthy_opt (processedImage st) then
    emit (ECreateElement "a");;
    let link := mkLink (default "" (processedImage st)) "processed-image.png" in
    emit (EAppendChild link);;
    emit (EClick link);;
    emit (ERemoveChild link)
  else mret ().

(** [reader.onload], with [e.target.result] *)
Definition reader_onload (result : string) : M AppState unit :=
  setSelectedImage (Some result);;
  setProcessedImage None.

(** [handleImageUpload(file)]; [None] stands for [undefined], which
    [readAsDataURL] rejects. *)
Definition handleImageUpload (file : option string) : M AppState unit :=
  match file with
  | Some f =>
      emit (EReadAsDataURL f);;
      modify_world (λ w, set_readers (readers w ++ [f]) w)
  | None => throw "TypeError"
  end.

(** The [onChange] of the file input: [files && handleImageUpload(files[0])] *)
Definition fileInput_onChange (files : option (list string)) : M AppState unit :=
  match files with
  | Some fs => handleImageUpload (head fs)
  | None => mret ()
  end.

(** [handleDrop]: [if (files && files[0]) handleImageUpload(files[0])] *)
Definition handleDrop (files : option (list string)) : M AppState unit :=
  match files with
  | Some (f :: _) => handleImageUpload (Some f)
  | _ => mret ()
  end.

(** The radio inputs rendered by the two [map]s, by their [value]. *)
Definition radios : list string :=
  TECHNIQUES.FILTERING.values ++ TECHNIQUES.SEGMENTATION.values.

(** The [onChange] of a radio input: [setSelectedTechnique(e.target.value)] *)
Definition radio_onChange (i : nat) : M AppState unit :=
  match radios !! i with
  | Some value => setSelectedTechnique value
  | None => mret ()
  end.

(** The [disabled] attribute of the two buttons. *)
Definition process_disabled (st : AppState) : bool :=
  negb (truthy_opt (selectedImage st)) || negb (truthy (selectedTechnique st))
  || isProcessing st.
Definition download_disabled (st : AppState) : bool :=
  negb (truthy_opt (processedImage st)).

(** What the output panel shows: the processed image, or the placeholder. *)
Definition output_shown (st : AppState) : option string :=
  if truthy_opt (processedImage st) then processedImage st else None.

(** The user and browser events the component reacts to. *)
Inductive Action : Type :=
| FileInputChange (files : option (list string))
| Drop (files : option (list string))
| ReaderLoad (i : nat)
| RadioChange (i : nat)
| ClickProcess
| ClickDownload.

Definition handler (a : Action) : M AppState unit :=
  match a with
  | FileInputChange files => fileInput_onChange files
  | Drop files => handleDrop files
  | ReaderLoad i =>
      w ← get_world;
      match readers w !! i with
      | Some f =>
          modify_world (set_readers (delete i (readers w)));;
          reader_onload (readAsDataURL_sem br f)
      | None => mret ()
      end
  | RadioChange i => radio_onChange i
  | ClickProcess =>
      st ← get_state;
      if process_disabled st then mret () else processImage
  | ClickDownload =>
      st ← get_state;
      if download_disabled st then mret () else downloadImage
  end.

(** After a handler, React renders again: the <img> is mounted exactly
    when [selectedImage] is truthy, the <canvas> always. *)
Definition commit (s : AppState * World) : AppState * World :=
  let '(st, w) := s in
  (st, set_canvasRef (Some (default None (canvasRef w)))
         (set_imageRef (if truthy_opt (selectedImage st)
                        then selectedImage st else None) w)).

Definition step (a : Action) (s : AppState * World) : AppState * World :=
  commit (snd (handler a s)).

Definition run (acts : list Action) (s : AppState * World) : AppState * World :=
  fold_left (λ s a, step a s) acts s.

Definition mounted : AppState * World :=
  (initial, mkWorld ∅ None (Some None) [] []).

Inductive reachable : AppState * World -> Prop :=
| reachable_mounted : reachable mounted
| reachable_step a s : reachable s -> reachable (step a s).
End Handlers.
(** The calls a clause makes when none throws, and the events it leaves. *)
Definition case_calls (cv : OpenCV) (c : Case) (img dst ker : handle) : list CvCall :=
  match c with
  | CaseGaussian => [GaussianBlur img dst (mkSize 5 5) 0 0 (BORDER_DEFAULT cv)]
  | CaseMedian => [medianBlur img dst 5]
  | CaseCanny => [cvtColor img img (COLOR_RGBA2GRAY cv); Canny img dst 50 150 3 false]
  | CaseLaplacian =>
      [cvtColor img img (COLOR_RGBA2GRAY cv);
       Laplacian img dst (CV_8U cv) 1 1 0 (BORDER_DEFAULT cv)]
  | CaseBinary =>
      [cvtColor img img (COLOR_RGBA2GRAY cv);
       threshold img dst 127 255 (THRESH_BINARY cv)]
  | CaseOtsu =>
      [cvtColor img img (COLOR_RGBA2GRAY cv);
       threshold img dst 0 255 (THRESH_BINARY cv + THRESH_OTSU cv)]
  | CaseMorphological =>
      [cvtColor img img (COLOR_RGBA2GRAY cv);
       threshold img dst 127 255 (THRESH_BINARY cv);
       getStructuringElement (MORPH_RECT cv) (mkSize 5 5);
       morphologyEx dst dst (MORPH_OPEN cv) ker]
  end.

Definition case_events (cv : OpenCV) (c : Case) (img dst ker : handle) : list Event :=
  (ECv <$> case_calls cv c img dst ker)
  ++ match c with CaseMorphological => [EDelete ker] | _ => [] end.

Definition dispatch_events (cv : OpenCV) (t : string) (img dst ker : handle) : list Event :=
  match switch_on t with
  | Some c => case_events cv c img dst ker
  | None => []
  end.
End App.

(** ** The component of [src/unnamed/part_000], with the dark-mode toggle *)

Module AppDark.

(** The constant [TECHNIQUES]. *)
Module TECHNIQUES.
Module FILTERING.
Definition GAUSSIAN : string := "Gaussian Blur".
Definition MEDIAN : string := "Median Filter".
Definition CANNY : string := "Canny Edge Detection".
Definition LAPLACIAN : string := "Laplacian Spatial Filter".
(** [Object.values(TECHNIQUES.FILTERING)], in insertion order *)
Definition values : list string := [GAUSSIAN; MEDIAN; CANNY; LAPLACIAN].
End FILTERING.
Module SEGMENTATION.
Definition BINARY : string := "Binary Thresholding".
Definition OTSU : string := "Otsu's Thresholding".
Definition MORPHOLOGICAL : string := "Morphological Cleaning".
(** [Object.values(TECHNIQUES.SEGMENTATION)], in insertion order *)
Definition values : list string := [BINARY; OTSU; MORPHOLOGICAL].
End SEGMENTATION.
End TECHNIQUES.

(** The [useState] cells of the component. *)
Record AppState := mkApp {
  selectedImage : option string;
  processedImage : option string;
  selectedTechnique : string;
  isProcessing : bool;
  isDarkMode : bool
}.

Definition initial : AppState := mkApp None None "" false true.

Definition setSelectedImage (v : option string) : M AppState unit :=
  emit (ESetSelectedImage v);;
  modify_state (λ s, mkApp v (processedImage s) (selectedTechnique s) (isProcessing s) (isDarkMode s)).
Definition setProcessedImage (v : option string) : M AppState unit :=
  emit (ESetProcessedImage v);;
  modify_state (λ s, mkApp (selectedImage s) v (selectedTechnique s) (isProcessing s) (isDarkMode s)).
Definition setSelectedTechnique (v : string) : M AppState unit :=
  emit (ESetSelectedTechnique v);;
  modify_state (λ s, mkApp (selectedImage s) (processedImage s) v (isProcessing s) (isDarkMode s)).
Definition setIsProcessing (v : bool) : M AppState unit :=
  emit (ESetIsProcessing v);;
  modify_state (λ s, mkApp (selectedImage s) (processedImage s) (selectedTechnique s) v (isDarkMode s)).
Definition setIsDarkMode (v : bool) : M AppState unit :=
  emit (ESetIsDarkMode v);;
  modify_state (λ s, mkApp (selectedImage s) (processedImage s) (selectedTechnique s) (isProcessing s) v).

(** The [case] clauses of the switch in [processImage], in source order. *)
Inductive Case : Set :=
| CaseGaussian | CaseMedian | CaseCanny | CaseLaplacian
| CaseBinary | CaseOtsu | CaseMorphological.

Definition cases : list Case :=
  [CaseGaussian; CaseMedian; CaseCanny; CaseLaplacian;
   CaseBinary; CaseOtsu; CaseMorphological].

Definition case_label (c : Case) : string :=
  match c with
  | CaseGaussian => TECHNIQUES.FILTERING.GAUSSIAN
  | CaseMedian => TECHNIQUES.FILTERING.MEDIAN
  | CaseCanny => TECHNIQUES.FILTERING.CANNY
  | CaseLaplacian => TECHNIQUES.FILTERING.LAPLACIAN
  | CaseBinary => TECHNIQUES.SEGMENTATION.BINARY
  | CaseOtsu => TECHNIQUES.SEGMENTATION.OTSU
  | CaseMorphological => TECHNIQUES.SEGMENTATION.MORPHOLOGICAL
  end.

(** [switch (t)]: the first clause whose label is strictly equal to [t]. *)
Definition switch_on (t : string) : option Case :=
  List.find (λ c, String.eqb t (case_label c)) cases.

Section Handlers.
Context (cv : OpenCV) (br : Browser).

(** The statements of a clause, up to its [break]. *)
Definition case_body (c : Case) (img dst : handle) : M AppState unit :=
  match c with
  | CaseGaussian =>
      cv_do cv (GaussianBlur img dst (mkSize 5 5) 0 0 (BORDER_DEFAULT cv))
  | CaseMedian =>
      cv_do cv (medianBlur img dst 5)
  | CaseCanny =>
      cv_do cv (cvtColor img img (COLOR_RGBA2GRAY cv));;
      cv_do cv (Canny img dst 50 150 3 false)
  | CaseLaplacian =>
      cv_do cv (cvtColor img img (COLOR_RGBA2GRAY cv));;
      cv_do cv (Laplacian img dst (CV_8U cv) 1 1 0 (BORDER_DEFAULT cv))
  | CaseBinary =>
      cv_do cv (cvtColor img img (COLOR_RGBA2GRAY cv));;
      cv_do cv (threshold img dst 127 255 (THRESH_BINARY cv))
  | CaseOtsu =>
      cv_do cv (cvtColor img img (COLOR_RGBA2GRAY cv));;
      cv_do cv (threshold img dst 0 255 (THRESH_BINARY cv + THRESH_OTSU cv))
  | CaseMorphological =>
      cv_do cv (cvtColor img img (COLOR_RGBA2GRAY cv));;
      cv_do cv (threshold img dst 127 255 (THRESH_BINARY cv));;
      kernel ← cv_getStructuringElement cv (MORPH_RECT cv) (mkSize 5 5);
      cv_do cv (morphologyEx dst dst (MORPH_OPEN cv) kernel);;
      Mat_delete kernel
  end.

Definition dispatch (t : string) (img dst : handle) : M AppState unit :=
  match switch_on t with
  | Some c => case_body c img dst
  | None => mret ()
  end.

(** The block of the [try]. *)
Definition processImage_try (image : string) : M AppState unit :=
  st ← get_state;
  img ← cv_imread cv image;
  dst ← new_Mat;
  dispatch (selectedTechnique st) img dst;;
  cv_imshow cv dst;;
  url ← canvas_toDataURL br;
  setProcessedImage (Some url);;
  Mat_delete img;;
  Mat_delete dst.

(** The condition of the early [return]. *)
Definition guard_fails (st : AppState) (w : World) : bool :=
  negb (truthy_opt (selectedImage st)) || negb (truthy (selectedTechnique st))
  || negb (bool_decide (is_Some (imageRef w)))
  || negb (bool_decide (is_Some (canvasRef w))).

Definition processImage : M AppState unit :=
  st ← get_state;
  w ← get_world;
  match imageRef w with
  | Some image =>
      if guard_fails st w then mret ()
      else
        setIsProcessing true;;
        try_catch_finally
          (processImage_try image)
          (λ error, console_error "Error processing image:" error)
          (setIsProcessing false)
  | None => mret ()
  end.

Definition downloadImage : M AppState unit :=
  st ← get_state;
  if truthy_opt (processedImage st) then
    emit (ECreateElement "a");;
    let link := mkLink (default "" (processedImage st)) "processed-image.png" in
    emit (EAppendChild link);;
    emit (EClick link);;
    emit (ERemoveChild link)
  else mret ().

(** [reader.onload], with [e.target.result] *)
Definition reader_onload (result : string) : M AppState unit :=
  setSelectedImage (Some result);;
  setProcessedImage None.

(** [handleImageUpload(file)]; [None] stands for [undefined], which
    [readAsDataURL] rejects. *)
Definition handleImageUpload (file : option string) : M AppState unit :=
  match file with
  | Some f =>
      emit (EReadAsDataURL f);;
      modify_world (λ w, set_readers (readers w ++ [f]) w)
  | None => throw "TypeError"
  end.

(** The [onChange] of the file input: [files && handleImageUpload(files[0])] *)
Definition fileInput_onChange (files : option (list string)) : M AppState unit :=
  match files with
  | Some fs => handleImageUpload (head fs)
  | None => mret ()
  end.

(** [handleDrop]: [if (files && files[0]) handleImageUpload(files[0])];
    the class it removes from the drop zone depends on [isDarkMode]
    and is presentation only. *)
Definition handleDrop (files : option (list string)) : M AppState unit :=
  match files with
  | Some (f :: _) => handleImageUpload (Some f)
  | _ => mret ()
  end.

(** The radio inputs rendered by the two [map]s, by their [value]. *)
Definition radios : list string :=
  TECHNIQUES.FILTERING.values ++ TECHNIQUES.SEGMENTATION.values.

(** The [onChange] of a radio input: [setSelectedTechnique(e.target.value)] *)
Definition radio_onChange (i : nat) : M AppState unit :=
  match radios !! i with
  | Some value => setSelectedTechnique value
  | None => mret ()
  end.

(** The [disabled] attribute of the two buttons. *)
Definition process_disabled (st : AppState) : bool :=
  negb (truthy_opt (selectedImage st)) || negb (truthy (selectedTechnique st))
  || isProcessing st.
Definition download_disabled (st : AppState) : bool :=
  negb (truthy_opt (processedImage st)).

(** What the output panel shows: the processed image, or the placeholder. *)
Definition output_shown (st : AppState) : option string :=
  if truthy_opt (processedImage st) then processedImage st else None.

(** The user and browser events the component reacts to. *)
Inductive Action : Type :=
| FileInputChange (files : option (list string))
| Drop (files : option (list string))
| ReaderLoad (i : nat)
| RadioChange (i : nat)
| ClickProcess
| ClickDownload
| ToggleDarkMode.

Definition handler (a : Action) : M AppState unit :=
  match a with
  | FileInputChange files => fileInput_onChange files
  | Drop files => handleDrop files
  | ReaderLoad i =>
      w ← get_world;
      match readers w !! i with
      | Some f =>
          modify_world (set_readers (delete i (readers w)));;
          reader_onload (readAsDataURL_sem br f)
      | None => mret ()
      end
  | RadioChange i => radio_onChange i
  | ClickProcess =>
      st ← get_state;
      if process_disabled st then mret () else processImage
  | ClickDownload =>
      st ← get_state;
      if download_disabled st then mret () else downloadImage
  | ToggleDarkMode =>
      st ← get_state;
      setIsDarkMode (negb (isDarkMode st))
  end.

(** After a handler, React renders again: the <img> is mounted exactly
    when [selectedImage] is truthy, the <canvas> always. *)
Definition commit (s : AppState * World) : AppState * World :=
  let '(st, w) := s in
  (st, set_canvasRef (Some (default None (canvasRef w)))
         (set_imageRef (if truthy_opt (selectedImage st)
                        then selectedImage st else None) w)).

Definition step (a : Action) (s : AppState * World) : AppState * World :=
  commit (snd (handler a s)).

Definition run (acts : list Action) (s : AppState * World) : AppState * World :=
  fold_left (λ s a, step a s) acts s.

Definition mounted : AppState * World :=
  (initial, mkWorld ∅ None (Some None) [] []).

Inductive reachable : AppState * World -> Prop :=
| reachable_mounted : reachable mounted
| reachable_step a s : reachable s -> reachable (step a s).
End Handlers.
End AppDark.

(** ** Forgetting the theme *)

(** The state of the dark-mode component without [isDarkMode], and its
    actions without the toggle. *)
Definition erase (st : AppDark.AppState) : App.AppState :=
  App.mkApp (AppDark.selectedImage st) (AppDark.processedImage st)
    (AppDark.selectedTechnique st) (AppDark.isProcessing st).

Definition erase_action (a : AppDark.Action) : option App.Action :=
  match a with
  | AppDark.FileInputChange files => Some (App.FileInputChange files)
  | AppDark.Drop files => Some (App.Drop files)
  | AppDark.ReaderLoad i => Some (App.ReaderLoad i)
  | AppDark.RadioChange i => Some (App.RadioChange i)
  | AppDark.ClickProcess => Some App.ClickProcess
  | AppDark.ClickDownload => Some App.ClickDownload
  | AppDark.ToggleDarkMode => None
  end.

(** The clauses of the two switches correspond. *)
Definition erase_case (c : AppDark.Case) : App.Case :=
  match c with
  | AppDark.CaseGaussian => App.CaseGaussian
  | AppDark.CaseMedian => App.CaseMedian
  | AppDark.CaseCanny => App.CaseCanny
  | AppDark.CaseLaplacian => App.CaseLaplacian
  | AppDark.CaseBinary => App.CaseBinary
  | AppDark.CaseOtsu => App.CaseOtsu
  | AppDark.CaseMorphological => App.CaseMorphological
  end.

(** [md] run in the dark-mode component and [ma] in the light one end alike:
    same completion, same world, same state once the theme is forgotten;
    and [md] leaves the theme alone. *)
Definition sim_at {A} (s : AppDark.AppState * World)
    (md : M AppDark.AppState A) (ma : M App.AppState A) : Prop :=
  ma (erase (fst s), snd s)
    = (fst (md s), (erase (fst (snd (md s))), snd (snd (md s))))
  ∧ AppDark.isDarkMode (fst (snd (md s))) = AppDark.isDarkMode (fst s).

Definition sim {A} (md : M AppDark.AppState A) (ma : M App.AppState A) : Prop :=
  ∀ s, sim_at s md ma.

(** ** A sample library and browser, for concrete runs *)

(** A library whose calls succeed except those selected by [fails]. *)
Definition sample_cv (fails : CvCall -> bool) : OpenCV :=
  {| BORDER_DEFAULT := 4; COLOR_RGBA2GRAY := 11; CV_8U := 0;
     THRESH_BINARY := 0; THRESH_OTSU := 8; MORPH_RECT := 0; MORPH_OPEN := 2;
     imread_sem := λ _, Ok (mkMat 1 1 24 [10; 20; 30; 255]);
     call_sem := λ c _, if fails c then Throw "cv exception"
                        else Ok (mkMat 1 1 0 [7]);
     imshow_sem := λ _, Ok () |}.

Definition sample_br : Browser :=
  {| toDataURL_sem := λ _, Ok "data:image/png;base64,AAAA";
     readAsDataURL_sem := λ f, "data:image/png;base64," +:+ f |}.

Definition never (c : CvCall) : bool := false.
Definition on_GaussianBlur (c : CvCall) : bool :=
  match c with GaussianBlur _ _ _ _ _ _ => true | _ => false end.
Definition on_morphologyEx (c : CvCall) : bool :=
  match c with morphologyEx _ _ _ _ => true | _ => false end.

(** A mounted component with an image and the given technique selected. *)
Definition sample_world : World :=
  mkWorld ∅ (Some "data:image/png;base64,QUJD") (Some None) [] [].
Definition sample_state (t : string) : App.AppState * World :=
  (App.mkApp (Some "data:image/png;base64,QUJD") None t false, sample_world).
Definition sample_dark_state (t : string) (dark : bool) : AppDark.AppState * World :=
  (AppDark.mkApp (Some "data:image/png;base64,QUJD") None t false dark, sample_world).


(** A run of the Gaussian clause in which [cv.GaussianBlur] throws. *)
Definition throwing_run : res unit * (App.AppState * World) :=
  App.processImage (sample_cv on_GaussianBlur) sample_br
    (sample_state "Gaussian Blur").

(** The component after a drop, the end of the read and a choice of Canny. *)
Definition sample_reached : App.AppState * World :=
  App.step (sample_cv never) sample_br (App.RadioChange 2)
    (App.step (sample_cv never) sample_br (App.ReaderLoad 0)
       (App.step (sample_cv never) sample_br (App.Drop (Some ["cat.png"]))
          App.mounted)).

(** ** The drop zone, the radio group and readings of the trace *)

(** A [DOMTokenList]: [add] appends a token that is absent, [remove]
    deletes it. *)
Definition classList_add (token : string) (cls : list string) : list string :=
  if bool_decide (token ∈ cls) then cls else cls ++ [token].
Definition classList_remove (token : string) (cls : list string) : list string :=
  filter (λ c, c ≠ token) cls.

(** What the drag handlers use of their event. *)
Record DragEvent := mkDragEvent {
  defaultPrevented : bool;
  propagationStopped : bool;
  dataTransfer_files : option (list string)
}.
Definition preventDefault (e : DragEvent) : DragEvent :=
  mkDragEvent true (propagationStopped e) (dataTransfer_files e).
Definition stopPropagation (e : DragEvent) : DragEvent :=
  mkDragEvent (defaultPrevented e) true (dataTransfer_files e).

(** The three listeners the second effect registers on the drop zone. *)
Inductive DragType : Set := on_dragover | on_dragleave | on_drop.

(** The second [useEffect] of [src/src/App.tsx]. *)
Module DropZone.
(** The tokens of the [className] the drop zone is rendered with. *)
Definition className : list string :=
  ["border-2"; "border-dashed"; "border-gray-300"; "rounded-lg"; "p-8";
   "text-center"; "transition-colors"; "duration-200";
   "hover:border-blue-500"; "cursor-pointer"].

Definition handleDragOver (e : DragEvent) (cls : list string)
    : DragEvent * list string :=
  (stopPropagation (preventDefault e), classList_add "border-blue-500" cls).
Definition handleDragLeave (e : DragEvent) (cls : list string)
    : DragEvent * list string :=
  (stopPropagation (preventDefault e), classList_remove "border-blue-500" cls).
(** [handleDrop] also hands the dropped files to [App.handleDrop]. *)
Definition handleDrop (e : DragEvent) (cls : list string)
    : DragEvent * list string * M App.AppState unit :=
  (stopPropagation (preventDefault e), classList_remove "border-blue-500" cls,
   App.handleDrop (dataTransfer_files e)).

(** The class list after the listener of an event of the given type. *)
Definition listener (t : DragType) (e : DragEvent) (cls : list string) : list string :=
  match t with
  | on_dragover => snd (handleDragOver e cls)
  | on_dragleave => snd (handleDragLeave e cls)
  | on_drop => snd (fst (handleDrop e cls))
  end.
Definition listeners (evs : list (DragType * DragEvent)) (cls : list string)
    : list string :=
  fold_left (λ cls te, listener (fst te) (snd te) cls) evs cls.
End DropZone.

(** The same effect in [src/unnamed/part_000]; it is run again whenever
    [isDarkMode] changes, so the listeners see the current theme. *)
Module DropZoneDark.
Definition className (isDarkMode : bool) : list string :=
  ["border-2"; "border-dashed"; "rounded-lg"; "p-8"; "text-center";
   "transition-colors"; "duration-200"; "cursor-pointer"]
  ++ (if isDarkMode
      then ["border-gray-700"; "hover:border-blue-400"; "bg-gray-800"]
      else ["border-gray-300"; "hover:border-blue-500"; "bg-white"]).

Definition handleDragOver (isDarkMode : bool) (e : DragEvent) (cls : list string)
    : DragEvent * list string :=
  (stopPropagation (preventDefault e),
   classList_add (if isDarkMode then "border-blue-400" else "border-blue-500") cls).
Definition handleDragLeave (isDarkMode : bool) (e : DragEvent) (cls : list string)
    : DragEvent * list string :=
  (stopPropagation (preventDefault e),
   classList_remove (if isDarkMode then "border-blue-400" else "border-blue-500") cls).
Definition handleDrop (isDarkMode : bool) (e : DragEvent) (cls : list string)
    : DragEvent * list string * M AppDark.AppState unit :=
  (stopPropagation (preventDefault e),
   classList_remove (if isDarkMode then "border-blue-400" else "border-blue-500") cls,
   AppDark.handleDrop (dataTransfer_files e)).

Definition listener (isDarkMode : bool) (t : DragType) (e : DragEvent)
    (cls : list string) : list string :=
  match t with
  | on_dragover => snd (handleDragOver isDarkMode e cls)
  | on_dragleave => snd (handleDragLeave isDarkMode e cls)
  | on_drop => snd (fst (handleDrop isDarkMode e cls))
  end.
Definition listeners (isDarkMode : bool) (evs : list (DragType * DragEvent))
    (cls : list string) : list string :=
  fold_left (λ cls te, listener isDarkMode (fst te) (snd te) cls) evs cls.
End DropZoneDark.

(** The [checked] attribute of the radio input of a technique:
    [selectedTechnique === technique]. *)
Definition radio_checked (st : App.AppState) (technique : string) : bool :=
  String.eqb (App.selectedTechnique st) technique.

(** Reading a trace for the origin of the result on display: the image
    element last read, and the image read and data URL of the last result
    stored and not reset since. *)
Definition origin_step (acc : option string * option (string * string))
    (e : Event) : option string * option (string * string) :=
  match e with
  | EImread image => (Some image, snd acc)
  | ESetProcessedImage None => (fst acc, None)
  | ESetProcessedImage (Some url) =>
      (fst acc, match fst acc with
                | Some image => Some (image, url)
                | None => None
                end)
  | _ => acc
  end.
Definition origin_from (acc : option string * option (string * string))
    (evs : list Event) : option string * option (string * string) :=
  fold_left origin_step evs acc.
Definition origin (evs : list Event) : option (string * string) :=
  snd (origin_from (None, None) evs).

(** A world with another trace, and a world without the events of the
    theme. *)
Definition set_trace (tr : list Event) (w : World) : World :=
  mkWorld (heap w) (imageRef w) (canvasRef w) (readers w) tr.
Definition is_theme (e : Event) : bool :=
  match e with ESetIsDarkMode _ => true | _ => false end.
Definition without_theme (tr : list Event) : list Event :=
  List.filter (λ e, negb (is_theme e)) tr.
Definition is_toggle (a : AppDark.Action) : bool :=
  match a with AppDark.ToggleDarkMode => true | _ => false end.

(** The outcome of [m] is the same for every trace it starts from, and it
    extends the trace by the same events, none of them of the theme. *)
Definition blind {St A} (m : M St A) : Prop :=
  ∀ st w, ∃ r st' w' evs,
    Forall (λ e, is_theme e = false) evs
    ∧ ∀ tr, m (st, set_trace tr w) = (r, (st', set_trace (tr ++ evs) w')).

(** What every render establishes. *)
Definition rendered (s : AppDark.AppState * World) : Prop :=
  canvasRef (snd s) = Some (default None (canvasRef (snd s)))
  ∧ imageRef (snd s) =
      if truthy_opt (AppDark.selectedImage (fst s))
      then AppDark.selectedImage (fst s) else None.

(** [m] leaves at most [n] more live matrices than it found. *)
Definition allocates {St A} (n : nat) (m : M St A) : Prop :=
  ∀ s, (size (heap (snd (snd (m s)))) ≤ size (heap (snd s)) + n)%nat.

(** The component after a further click on Process. *)
Definition sample_processed : App.AppState * World :=
  App.step (sample_cv never) sample_br App.ClickProcess sample_reached.

(** The component after a drop, the end of the read, the choice of the
    morphological cleaning and a click on Process, with a library whose
    [cv.morphologyEx] throws. *)
Definition sample_leaked : App.AppState * World :=
  App.step (sample_cv on_morphologyEx) sample_br App.ClickProcess
    (App.step (sample_cv on_morphologyEx) sample_br (App.RadioChange 6)
       (App.step (sample_cv on_morphologyEx) sample_br (App.ReaderLoad 0)
          (App.step (sample_cv on_morphologyEx) sample_br
             (App.Drop (Some ["cat.png"])) App.mounted))).

Ltac handler_solve :=
  refine (ex_intro _ _ (conj _ (conj _ (conj _ eq_refl))));
  cbn;
  unfold App.reader_onload, App.setSelectedImage, App.setProcessedImage,
    App.setSelectedTechnique, emit, modify_world, modify_state, throw,
    mbind, M_bind, mret, M_ret;
  cbn; rewrite <- ?app_assoc, ?app_nil_r; reflexivity.

Ltac trace_eq :=
  repeat first [rewrite <- app_assoc | progress cbn [app]]; reflexivity.

Ltac events_solve :=
  unfold events, events_since; cbn;
  unfold App.reader_onload, App.setSelectedImage, App.setProcessedImage,
    App.setSelectedTechnique, App.setIsProcessing,
    emit, modify_world, modify_state, throw, mbind, M_bind, mret, M_ret;
  cbn;
  first [rewrite drop_all | rewrite <- ?app_assoc; rewrite drop_app_length];
  cbn; repeat constructor.

Ltac live_solve :=
  cbn; repeat constructor; rewrite ?lookup_delete_ne by done;
  rewrite ?lookup_insert_is_Some'; auto.

(** * Properties *)

(** ** How the operations run *)

Section Runs.
Context (cv : OpenCV) (br : Browser) {St : Type}.
Implicit Types (st : St) (w : World) (h : gmap handle Mat).

Lemma live_true h x : live h x = true ↔ is_Some (h !! x).
Proof. unfold live. apply bool_decide_eq_true. Qed.

Lemma cv_call_live c w :
  Forall (λ x, is_Some (heap w !! x)) (operands c) ->
  forallb (live (heap w)) (operands c) = true.
Proof.
  intros Hl. apply forallb_forall. intros x Hx. apply live_true.
  rewrite Forall_forall in Hl. apply Hl. by apply list_elem_of_In.
Qed.

Lemma cv_do_run c d st w :
  destination c = Some d ->
  Forall (λ x, is_Some (heap w !! x)) (operands c) ->
  cv_do (St:=St) cv c (st, w) =
    match call_sem cv c (heap w) with
    | Ok m => (Ok (), (st, set_heap (<[d:=m]> (heap w)) (log (ECv c) w)))
    | Throw e => (Throw e, (st, log (ECv c) w))
    end.
Proof.
  intros Hd Hl.
  unfold cv_do, cv_call, emit, modify_world, get_world, lift_res, throw,
    mbind, M_bind, mret, M_ret; cbn.
  rewrite (cv_call_live _ _ Hl), Hd.
  destruct (call_sem cv c (heap w)); reflexivity.
Qed.

Lemma cv_getStructuringElement_run shape ksize st w :
  cv_getStructuringElement (St:=St) cv shape ksize (st, w) =
    match call_sem cv (getStructuringElement shape ksize) (heap w) with
    | Ok m => (Ok (fresh (dom (heap w))),
               (st, set_heap (<[fresh (dom (heap w)):=m]> (heap w))
                      (log (ECv (getStructuringElement shape ksize)) w)))
    | Throw e => (Throw e, (st, log (ECv (getStructuringElement shape ksize)) w))
    end.
Proof.
  unfold cv_getStructuringElement, cv_call, alloc, emit, modify_world,
    get_world, lift_res, throw, mbind, M_bind, mret, M_ret; cbn.
  destruct (call_sem cv _ (heap w)); reflexivity.
Qed.

Lemma cv_imread_run el st w :
  cv_imread (St:=St) cv el (st, w) =
    match imread_sem cv el with
    | Ok m => (Ok (fresh (dom (heap w))),
               (st, set_heap (<[fresh (dom (heap w)):=m]> (heap w)) (log (EImread el) w)))
    | Throw e => (Throw e, (st, log (EImread el) w))
    end.
Proof.
  unfold cv_imread, alloc, emit, modify_world, get_world, lift_res,
    mbind, M_bind, mret, M_ret; cbn.
  destruct (imread_sem cv el); reflexivity.
Qed.

Lemma new_Mat_run st w :
  new_Mat (St:=St) (st, w) =
    (Ok (fresh (dom (heap w))),
     (st, set_heap (<[fresh (dom (heap w)):=mkMat 0 0 0 []]> (heap w)) (log ENewMat w))).
Proof. reflexivity. Qed.

Lemma Mat_delete_run x st w :
  is_Some (heap w !! x) ->
  Mat_delete (St:=St) x (st, w) =
    (Ok (), (st, set_heap (delete x (heap w)) (log (EDelete x) w))).
Proof.
  intros Hl. apply live_true in Hl.
  unfold Mat_delete, emit, modify_world, get_world, throw,
    mbind, M_bind, mret, M_ret; cbn.
  by rewrite Hl.
Qed.

Lemma cv_imshow_run x mat st w :
  heap w !! x = Some mat ->
  cv_imshow (St:=St) cv x (st, w) =
    match imshow_sem cv mat with
    | Ok _ => (Ok (), (st, set_canvasRef (Some (Some mat)) (log (EImshow x) w)))
    | Throw e => (Throw e, (st, log (EImshow x) w))
    end.
Proof.
  intros Hx.
  unfold cv_imshow, emit, modify_world, get_world, lift_res, throw,
    mbind, M_bind, mret, M_ret; cbn.
  rewrite Hx. destruct (imshow_sem cv mat); reflexivity.
Qed.

Lemma canvas_toDataURL_run shown st w :
  canvasRef w = Some shown ->
  canvas_toDataURL (St:=St) br (st, w) =
    match toDataURL_sem br shown with
    | Ok url => (Ok url, (st, log EToDataURL w))
    | Throw e => (Throw e, (st, log EToDataURL w))
    end.
Proof.
  intros Hc.
  unfold canvas_toDataURL, emit, modify_world, get_world, lift_res, throw,
    mbind, M_bind, mret, M_ret; cbn.
  rewrite Hc. destruct (toDataURL_sem br shown); reflexivity.
Qed.

Lemma bind_run {A B} (m : M St A) (f : A -> M St B) s :
  (m ≫= f) s = match m s with
               | (Ok a, s') => f a s'
               | (Throw e, s') => (Throw e, s')
               end.
Proof. reflexivity. Qed.
End Runs.

(** ** The switch and the [try] block, step by step *)

Section Dispatch.
Context (cv : OpenCV) (br : Browser).

(** A clause run on two live matrices: its events are those of
    [case_events], all of them or, when a call throws, the first ones;
    it leaves the two matrices live and touches no other but the
    structuring element, which it allocates and deletes. *)
Lemma case_body_run c img dst st w :
  is_Some (heap w !! img) -> is_Some (heap w !! dst) ->
  ∃ r w', App.case_body cv c img dst (st, w) = (r, (st, w'))
    ∧ imageRef w' = imageRef w ∧ canvasRef w' = canvasRef w
    ∧ readers w' = readers w
    ∧ match r with
      | Ok _ =>
          trace w' = trace w ++ App.case_events cv c img dst (fresh (dom (heap w)))
          ∧ (∀ x, x ≠ img -> x ≠ dst -> heap w' !! x = heap w !! x)
          ∧ is_Some (heap w' !! img) ∧ is_Some (heap w' !! dst)
      | Throw _ =>
          ∃ pre, trace w' = trace w ++ pre
            ∧ pre `prefix_of` App.case_events cv c img dst (fresh (dom (heap w)))
            ∧ (∀ x, is_Some (heap w !! x) -> is_Some (heap w' !! x))
      end.
Proof.
  intros Hi Hd.
  assert (Hk : heap w !! fresh (dom (heap w)) = None)
    by (apply not_elem_of_dom, is_fresh).
  assert (Hki : fresh (dom (heap w)) ≠ img)
    by (intros E; rewrite E in Hk; rewrite Hk in Hi; by destruct Hi).
  assert (Hkd : fresh (dom (heap w)) ≠ dst)
    by (intros E; rewrite E in Hk; rewrite Hk in Hd; by destruct Hd).
  assert (Hdom : ∀ m1 m2, dom (<[dst:=m2]> (<[img:=m1]> (heap w))) = dom (heap w)).
  { intros. rewrite !dom_insert_lookup_L; auto.
    rewrite lookup_insert_is_Some'; auto. }
  destruct c; unfold App.case_body; rewrite ?bind_run;
    repeat first
      [ rewrite (cv_do_run cv _ dst) by live_solve
      | rewrite (cv_do_run cv _ img) by live_solve
      | rewrite cv_getStructuringElement_run
      | rewrite Mat_delete_run by live_solve
      | match goal with
        | |- context [call_sem cv ?c ?h] => destruct (call_sem cv c h)
        end
      | rewrite bind_run
      | progress cbn [heap set_heap log] ];
    rewrite ?Hdom;
    try (eexists (Ok ()), _; split; [reflexivity|]; cbn;
         rewrite <- ?app_assoc; repeat split; try done;
         [ intros x Hxi Hxd;
           destruct (decide (x = fresh (dom (heap w)))) as [->|Hxk];
           rewrite ?lookup_delete_eq, ?lookup_delete_ne by done;
           rewrite ?lookup_insert_ne by done; done
         | live_solve.. ]).
  all: try (eexists (Throw _), _; (split; [reflexivity|]); cbn;
    do 3 (split; [done|]); eexists;
    (split; [rewrite <- ?app_assoc; reflexivity|]);
    (split; [by eexists | intros x Hx; live_solve])).
Qed.
End Dispatch.

Section ProcessImage.
Context (cv : OpenCV) (br : Browser).

Lemma dispatch_run t img dst st w :
  is_Some (heap w !! img) -> is_Some (heap w !! dst) ->
  ∃ r w', App.dispatch cv t img dst (st, w) = (r, (st, w'))
    ∧ imageRef w' = imageRef w ∧ canvasRef w' = canvasRef w
    ∧ readers w' = readers w
    ∧ match r with
      | Ok _ =>
          trace w' = trace w ++ App.dispatch_events cv t img dst (fresh (dom (heap w)))
          ∧ (∀ x, x ≠ img -> x ≠ dst -> heap w' !! x = heap w !! x)
          ∧ is_Some (heap w' !! img) ∧ is_Some (heap w' !! dst)
      | Throw _ =>
          ∃ pre, trace w' = trace w ++ pre
            ∧ pre `prefix_of` App.dispatch_events cv t img dst (fresh (dom (heap w)))
            ∧ (∀ x, is_Some (heap w !! x) -> is_Some (heap w' !! x))
      end.
Proof.
  intros Hi Hd. unfold App.dispatch, App.dispatch_events.
  destruct (App.switch_on t) as [c|].
  - by apply case_body_run.
  - exists (Ok ()), w. rewrite app_nil_r. by repeat split.
Qed.

Lemma fresh1_fresh (h : gmap handle Mat) : h !! fresh1 h = None.
Proof. unfold fresh1. apply not_elem_of_dom, is_fresh. Qed.

Lemma fresh2_fresh (h : gmap handle Mat) : h !! fresh2 h = None ∧ fresh2 h ≠ fresh1 h.
Proof.
  pose proof (is_fresh ({[fresh1 h]} ∪ dom h)) as H. fold (fresh2 h) in H.
  split; [apply not_elem_of_dom|]; set_solver.
Qed.

Lemma fresh3_fresh (h : gmap handle Mat) :
  h !! fresh3 h = None ∧ fresh3 h ≠ fresh1 h ∧ fresh3 h ≠ fresh2 h.
Proof.
  pose proof (is_fresh ({[fresh2 h]} ∪ ({[fresh1 h]} ∪ dom h))) as H.
  fold (fresh3 h) in H.
  split; [apply not_elem_of_dom|]; set_solver.
Qed.

(** The [try] block: either all its steps ran, and then the heap is the one
    it started from, or it threw no later than [toDataURL], and then the
    state is untouched and the matrices allocated so far are still live. *)
Lemma processImage_try_run image st w shown :
  canvasRef w = Some shown ->
  let img := fresh1 (heap w) in
  let dst := fresh2 (heap w) in
  let ker := fresh3 (heap w) in
  ∃ r st' w', App.processImage_try cv br image (st, w) = (r, (st', w'))
    ∧ imageRef w' = imageRef w ∧ readers w' = readers w
    ∧ match r with
      | Ok _ => ∃ url mat,
          trace w' = trace w ++ [EImread image; ENewMat]
            ++ App.dispatch_events cv (App.selectedTechnique st) img dst ker
            ++ [EImshow dst; EToDataURL; ESetProcessedImage (Some url);
                EDelete img; EDelete dst]
          ∧ heap w' = heap w
          ∧ canvasRef w' = Some (Some mat)
          ∧ toDataURL_sem br (Some mat) = Ok url
          ∧ st' = App.mkApp (App.selectedImage st) (Some url)
                    (App.selectedTechnique st) (App.isProcessing st)
      | Throw _ => ∃ pre,
          trace w' = trace w ++ pre
          ∧ pre `prefix_of` [EImread image; ENewMat]
              ++ App.dispatch_events cv (App.selectedTechnique st) img dst ker
              ++ [EImshow dst; EToDataURL]
          ∧ st' = st
          ∧ (∀ x, is_Some (heap w !! x) -> is_Some (heap w' !! x))
          ∧ (ENewMat ∈ pre -> is_Some (heap w' !! img) ∧ is_Some (heap w' !! dst))
      end.
Proof.
  intros Hc img dst ker.
  destruct (fresh2_fresh (heap w)) as [Hd Hdi].
  pose proof (fresh1_fresh (heap w)) as Hi.
  fold img in Hi, Hdi. fold dst in Hd, Hdi.
  unfold App.processImage_try.
  rewrite bind_run. cbn [get_state fst snd].
  rewrite bind_run, cv_imread_run. fold (fresh1 (heap w)). fold img.
  destruct (imread_sem cv image) as [m|e].
  2:{ eexists (Throw _), _, _. split; [reflexivity|]. cbn.
      do 2 (split; [done|]). eexists. split; [reflexivity|].
      split; [by eexists|]. split; [done|]. split; [done|].
      intros H. apply list_elem_of_singleton in H. done. }
  rewrite bind_run, new_Mat_run. cbn [heap set_heap log].
  rewrite dom_insert_L. change (fresh ({[img]} ∪ dom (heap w))) with dst.
  rewrite bind_run.
  set (w1 := set_heap _ _).
  edestruct (dispatch_run (App.selectedTechnique st) img dst st w1)
    as (r & w2 & Hrun & Hir & Hcr & Hrr & Hpost).
  { subst w1. live_solve. }
  { subst w1. live_solve. }
  rewrite Hrun.
  assert (Hker : fresh (dom (heap w1)) = ker).
  { subst w1. cbn. rewrite !dom_insert_L. reflexivity. }
  rewrite Hker in Hpost.
  assert (Hw1 : ∀ x, is_Some (heap w !! x) -> is_Some (heap w1 !! x))
    by (intros x Hx; subst w1; live_solve).
  assert (Ht1 : trace w1 = trace w ++ [EImread image; ENewMat])
    by (subst w1; cbn; by rewrite <- app_assoc).
  destruct r as [[]|e].
  2:{ destruct Hpost as (pre & Ht & Hpre & Hlive).
      eexists (Throw _), _, _. split; [reflexivity|].
      rewrite Hir, Hrr. do 2 (split; [done|]).
      exists ([EImread image; ENewMat] ++ pre).
      split; [by rewrite Ht, Ht1, <- app_assoc|].
      split; [by apply prefix_app, prefix_app_r|].
      split; [done|]. split; [by auto|].
      intros _. split; apply Hlive; subst w1; live_solve. }
  destruct Hpost as (Ht & Hsame & Hmi & [md Hmd]).
  assert (Hw2 : ∀ x, is_Some (heap w !! x) -> is_Some (heap w2 !! x)).
  { intros x Hx. destruct (decide (x = img)) as [->|]; [done|].
    destruct (decide (x = dst)) as [->|]; [by eexists|].
    rewrite Hsame by done. by apply Hw1. }
  rewrite bind_run, (cv_imshow_run cv dst md) by done.
  destruct (imshow_sem cv md) as [[]|e].
  2:{ eexists (Throw _), _, _. split; [reflexivity|]. cbn.
      rewrite Hir, Hrr. do 2 (split; [done|]).
      eexists. split; [by rewrite Ht, Ht1, <- !app_assoc|].
      split; [do 2 apply prefix_cons; apply prefix_app; by eexists|].
      split; [done|]. split; [done|].
      intros _. split; [done|by eexists]. }
  rewrite bind_run, (canvas_toDataURL_run br (Some md)) by done.
  destruct (toDataURL_sem br (Some md)) as [url|e] eqn:Hurl.
  2:{ eexists (Throw _), _, _. split; [reflexivity|]. cbn.
      rewrite Hir, Hrr. do 2 (split; [done|]).
      eexists. split; [by rewrite Ht, Ht1, <- !app_assoc|].
      split; [do 2 apply prefix_cons; apply prefix_app; by eexists|].
      split; [done|]. split; [done|].
      intros _. split; [done|by eexists]. }
  rewrite bind_run.
  unfold App.setProcessedImage at 1, emit, modify_world, modify_state.
  rewrite bind_run. cbn [fst snd App.selectedImage App.selectedTechnique
    App.isProcessing mret M_ret].
  rewrite bind_run, Mat_delete_run by live_solve.
  rewrite Mat_delete_run
    by (cbn; rewrite lookup_delete_ne by done; by eexists).
  eexists (Ok ()), _, _. split; [reflexivity|]. cbn.
  rewrite Hir, Hrr. do 2 (split; [done|]).
  exists url, md. split; [by rewrite Ht, Ht1, <- !app_assoc|].
  split; [|done].
  apply map_eq. intros x.
  destruct (decide (x = dst)) as [->|]; [by rewrite lookup_delete_eq|].
  rewrite lookup_delete_ne by done.
  destruct (decide (x = img)) as [->|]; [by rewrite lookup_delete_eq|].
  rewrite lookup_delete_ne, Hsame by done.
  subst w1. cbn. by rewrite !lookup_insert_ne.
Qed.
End ProcessImage.

Section ProcessImageRun.
Context (cv : OpenCV) (br : Browser).

Lemma guard_passes st w :
  App.guard_fails st w = false ->
  truthy_opt (App.selectedImage st) = true
  ∧ truthy (App.selectedTechnique st) = true
  ∧ (∃ image, imageRef w = Some image) ∧ (∃ shown, canvasRef w = Some shown).
Proof.
  unfold App.guard_fails. rewrite !orb_false_iff, !negb_false_iff.
  rewrite !bool_decide_eq_true. intros [[[? ?] [? ?]] [? ?]]. eauto 10.
Qed.

(** One invocation that passes the guard: it completes normally, brackets
    the events of the [try] between the two updates of [isProcessing], and
    either ran the whole block or logged the error of the step that threw. *)
Lemma processImage_run st w image :
  App.guard_fails st w = false -> imageRef w = Some image ->
  let img := fresh1 (heap w) in
  let dst := fresh2 (heap w) in
  let ker := fresh3 (heap w) in
  let D := App.dispatch_events cv (App.selectedTechnique st) img dst ker in
  ∃ st' w' evs,
    App.processImage cv br (st, w) = (Ok (), (st', w'))
    ∧ trace w' = trace w ++ [ESetIsProcessing true] ++ evs ++ [ESetIsProcessing false]
    ∧ imageRef w' = imageRef w ∧ readers w' = readers w
    ∧ ((∃ url mat,
          evs = [EImread image; ENewMat] ++ D
                ++ [EImshow dst; EToDataURL; ESetProcessedImage (Some url);
                    EDelete img; EDelete dst]
          ∧ heap w' = heap w
          ∧ canvasRef w' = Some (Some mat)
          ∧ toDataURL_sem br (Some mat) = Ok url
          ∧ st' = App.mkApp (App.selectedImage st) (Some url)
                    (App.selectedTechnique st) false)
       ∨ (∃ pre e,
          evs = pre ++ [EConsoleError "Error processing image:" e]
          ∧ pre `prefix_of` [EImread image; ENewMat] ++ D ++ [EImshow dst; EToDataURL]
          ∧ st' = App.mkApp (App.selectedImage st) (App.processedImage st)
                    (App.selectedTechnique st) false
          ∧ (∀ x, is_Some (heap w !! x) -> is_Some (heap w' !! x))
          ∧ (ENewMat ∈ pre -> is_Some (heap w' !! img) ∧ is_Some (heap w' !! dst)))).
Proof.
  intros Hg Him img dst ker D.
  destruct (guard_passes _ _ Hg) as (_ & _ & _ & shown & Hc).
  unfold App.processImage. rewrite bind_run. cbn [get_state fst snd].
  rewrite bind_run. cbn [get_world fst snd]. rewrite Him, Hg.
  rewrite bind_run.
  unfold App.setIsProcessing at 1, emit, modify_world, modify_state.
  rewrite bind_run. cbn [fst snd mret M_ret].
  unfold try_catch_finally.
  set (st1 := App.mkApp _ _ _ true).
  set (w1 := log _ w).
  destruct (processImage_try_run cv br image st1 w1 shown Hc)
    as (r & st2 & w2 & Hrun & Hir & Hrr & Hpost).
  rewrite Hrun. change (heap w1) with (heap w) in Hpost.
  change (App.selectedTechnique st1) with (App.selectedTechnique st) in Hpost.
  fold img dst ker in Hpost. fold D in Hpost.
  clearbody D img dst ker.
  destruct r as [[]|e].
  - destruct Hpost as (url & mat & Ht & Hh & Hcv & Hurl & ->).
    eexists _, _, ([EImread image; ENewMat] ++ D
                   ++ [EImshow dst; EToDataURL; ESetProcessedImage (Some url);
                       EDelete img; EDelete dst]).
    split; [reflexivity|]. cbn [trace log heap imageRef readers canvasRef fst snd].
    rewrite Ht. split; [subst w1; cbn [trace log]; trace_eq|].
    rewrite Hir, Hrr. do 2 (split; [done|]). left. exists url, mat. by repeat split.
  - destruct Hpost as (pre & Ht & Hpre & -> & Hl & Hleak).
    eexists _, _, (pre ++ [EConsoleError "Error processing image:" e]).
    split; [reflexivity|]. cbn [trace log heap imageRef readers canvasRef fst snd].
    rewrite Ht. split; [subst w1; cbn [trace log]; trace_eq|].
    rewrite Hir, Hrr. do 2 (split; [done|]). right. exists pre, e. do 4 (split; [done|]). exact Hleak.
Qed.
End ProcessImageRun.

(** ** The enumeration of techniques *)

(** C5: the technique names offered are exactly seven, four filtering
    techniques and three segmentation techniques, pairwise distinct; the
    dark-mode component offers the same ones. *)
Theorem techniques_enumeration :
  App.TECHNIQUES.FILTERING.values =
    ["Gaussian Blur"; "Median Filter"; "Canny Edge Detection";
     "Laplacian Spatial Filter"]
  ∧ App.TECHNIQUES.SEGMENTATION.values =
    ["Binary Thresholding"; "Otsu's Thresholding"; "Morphological Cleaning"]
  ∧ length App.TECHNIQUES.FILTERING.values = 4%nat
  ∧ length App.TECHNIQUES.SEGMENTATION.values = 3%nat
  ∧ length App.radios = 7%nat
  ∧ NoDup App.radios
  ∧ AppDark.radios = App.radios.
Proof.
  repeat split.
  apply (bool_decide_unpack _). by vm_compute.
Qed.

Lemma case_label_radios c : App.case_label c ∈ App.radios.
Proof. destruct c; unfold App.radios; cbn; set_solver. Qed.

Lemma switch_on_label c : App.switch_on (App.case_label c) = Some c.
Proof. by destruct c. Qed.

Lemma switch_on_Some t c : App.switch_on t = Some c -> App.case_label c = t.
Proof.
  unfold App.switch_on. intros H. apply find_some in H as [_ H].
  by apply String.eqb_eq in H.
Qed.

Lemma switch_on_radios t :
  t ∈ App.radios -> ∃ c, App.switch_on t = Some c ∧ App.case_label c = t.
Proof.
  unfold App.radios, App.TECHNIQUES.FILTERING.values,
    App.TECHNIQUES.SEGMENTATION.values. cbn [app]. intros H.
  repeat (apply elem_of_cons in H as [->|H]; [by eexists|]).
  by apply elem_of_nil in H.
Qed.

Lemma case_label_inj c c' : App.case_label c = App.case_label c' -> c = c'.
Proof. by destruct c, c'. Qed.

(** ** Reading traces *)

Lemma events_since_app w w' evs :
  trace w' = trace w ++ evs -> events_since w w' = evs.
Proof. unfold events_since. intros ->. apply drop_app_length. Qed.

Lemma omap_prefix {A B} (f : A -> option B) (l1 l2 : list A) :
  l1 `prefix_of` l2 -> omap f l1 `prefix_of` omap f l2.
Proof. intros [k ->]. rewrite omap_app. by eexists. Qed.

Lemma cv_calls_dispatch_events cv t img dst ker :
  cv_calls (App.dispatch_events cv t img dst ker) =
    match App.switch_on t with
    | Some c => App.case_calls cv c img dst ker
    | None => []
    end.
Proof.
  unfold App.dispatch_events. destruct (App.switch_on t) as [c|]; [|done].
  by destruct c.
Qed.

Lemma errors_dispatch_events cv t img dst ker :
  errors (App.dispatch_events cv t img dst ker) = [].
Proof.
  unfold App.dispatch_events. destruct (App.switch_on t) as [c|]; [|done].
  by destruct c.
Qed.

Section Summary.
Context (cv : OpenCV) (br : Browser).

(** The two ways an invocation that passes the guard can go, read off the
    state, the world and the events it leaves. *)
Lemma processImage_summary st w :
  App.guard_fails st w = false ->
  let img := fresh1 (heap w) in
  let dst := fresh2 (heap w) in
  let ker := fresh3 (heap w) in
  let D := App.dispatch_events cv (App.selectedTechnique st) img dst ker in
  let evs := events (App.processImage cv br) (st, w) in
  let st' := fst (snd (App.processImage cv br (st, w))) in
  let w' := snd (snd (App.processImage cv br (st, w))) in
  ∃ image, imageRef w = Some image
    ∧ fst (App.processImage cv br (st, w)) = Ok ()
    ∧ imageRef w' = imageRef w ∧ readers w' = readers w
    ∧ ((∃ url mat,
          evs = [ESetIsProcessing true; EImread image; ENewMat] ++ D
                ++ [EImshow dst; EToDataURL; ESetProcessedImage (Some url);
                    EDelete img; EDelete dst; ESetIsProcessing false]
          ∧ errors evs = []
          ∧ cv_calls evs = cv_calls D
          ∧ heap w' = heap w
          ∧ canvasRef w' = Some (Some mat)
          ∧ toDataURL_sem br (Some mat) = Ok url
          ∧ st' = App.mkApp (App.selectedImage st) (Some url)
                    (App.selectedTechnique st) false)
       ∨ (∃ pre e,
          evs = [ESetIsProcessing true] ++ pre
                ++ [EConsoleError "Error processing image:" e; ESetIsProcessing false]
          ∧ errors evs = [e]
          ∧ cv_calls evs `prefix_of` cv_calls D
          ∧ pre `prefix_of` [EImread image; ENewMat] ++ D ++ [EImshow dst; EToDataURL]
          ∧ st' = App.mkApp (App.selectedImage st) (App.processedImage st)
                    (App.selectedTechnique st) false
          ∧ (∀ x, is_Some (heap w !! x) -> is_Some (heap w' !! x))
          ∧ (ENewMat ∈ pre -> is_Some (heap w' !! img) ∧ is_Some (heap w' !! dst)))).
Proof.
  intros Hg img dst ker D evs st' w'.
  destruct (guard_passes _ _ Hg) as (_ & _ & [image Him] & _).
  destruct (processImage_run cv br st w image Hg Him)
    as (st1 & w1 & evs0 & Hrun & Ht & Hir & Hrr & Hcases).
  fold img dst ker in Hcases. fold D in Hcases.
  assert (Hevs : evs = [ESetIsProcessing true] ++ evs0 ++ [ESetIsProcessing false]).
  { unfold evs, events. rewrite Hrun. by apply events_since_app. }
  subst st' w'. rewrite Hrun. cbn [fst snd].
  assert (HeD : errors D = []) by apply errors_dispatch_events.
  clearbody D img dst ker evs. subst evs.
  exists image. do 4 (split; [done|]).
  destruct Hcases as [(url & mat & -> & Hh & Hc & Hurl & ->)
                     |(pre & e & -> & Hpre & -> & Hl & Hleak)]; [left|right].
  - exists url, mat. split; [trace_eq|].
    unfold errors, cv_calls in *. rewrite !omap_app, ?HeD. cbn.
    rewrite ?app_nil_r. by repeat split.
  - exists pre, e. split; [trace_eq|].
    assert (Hep : errors pre = []).
    { apply (omap_prefix (λ e, match e with
                               | EConsoleError _ err => Some err | _ => None
                               end)) in Hpre.
      unfold errors in HeD. rewrite !omap_app, HeD in Hpre.
      by apply prefix_nil_inv in Hpre. }
    unfold errors, cv_calls in *. rewrite !omap_app, ?Hep. cbn.
    rewrite ?app_nil_r. split; [done|]. split; [|done].
    pose proof (omap_prefix
      (λ e, match e with ECv c => Some c | _ => None end) _ _ Hpre) as Hc.
    rewrite !omap_app in Hc. cbn in Hc. by rewrite ?app_nil_r in Hc.
Qed.
End Summary.

(** ** Which step threw *)

Section Thrown.
Context (cv : OpenCV) (br : Browser).




End Thrown.

(** ** Reading the calls off a trace *)



(** ** The invocation of [processImage] *)

Section Invocation.
Context (cv : OpenCV) (br : Browser).


(** C2, as amended: when the guard passes and no step of the [try] block
    throws, every matrix allocated by the invocation (source, destination
    and, for the morphological clause, the structuring element) has been
    deleted when it completes: the heap of native matrices is the one the
    invocation started from. *)
Theorem buffers_released_on_success st w :
  App.guard_fails st w = false ->
  errors (events (App.processImage cv br) (st, w)) = [] ->
  let evs := events (App.processImage cv br) (st, w) in
  let w' := snd (snd (App.processImage cv br (st, w))) in
  heap w' = heap w
  ∧ EDelete (fresh1 (heap w)) ∈ evs
  ∧ EDelete (fresh2 (heap w)) ∈ evs
  ∧ (App.selectedTechnique st = "Morphological Cleaning" ->
     EDelete (fresh3 (heap w)) ∈ evs).
Proof.
  intros Hg Hok evs w'.
  destruct (processImage_summary cv br st w Hg)
    as (image & _ & _ & _ & _ & Hcases).
  fold evs w' in Hcases. fold evs in Hok.
  destruct Hcases as [(url & mat & Hevs & _ & _ & Hh & _)|(pre & e & _ & He & _)];
    [|by rewrite He in Hok].
  split; [done|]. rewrite Hevs. clearbody evs w'.
  split; [|split].
  - rewrite !elem_of_app. right. right. set_solver.
  - rewrite !elem_of_app. right. right. set_solver.
  - intros ->. rewrite !elem_of_app. right. left.
    change (App.dispatch_events cv "Morphological Cleaning" ?i ?d ?k)
      with (App.case_events cv App.CaseMorphological i d k).
    unfold App.case_events. rewrite elem_of_app. right. set_solver.
Qed.

(** C3: a run in which nothing throws performs, in this order: the load of
    the image element into a matrix ([cv.imread]) and the allocation of the
    destination, the calls of the selected clause, the rendering on the
    canvas ([cv.imshow]) and the storing of the canvas' data URL as the
    processed image, and the deletion of the two matrices; the whole between
    the two updates of [isProcessing]. *)
Theorem processImage_steps_in_order st w :
  App.guard_fails st w = false ->
  errors (events (App.processImage cv br) (st, w)) = [] ->
  let img := fresh1 (heap w) in
  let dst := fresh2 (heap w) in
  let ker := fresh3 (heap w) in
  let st' := fst (snd (App.processImage cv br (st, w))) in
  let w' := snd (snd (App.processImage cv br (st, w))) in
  ∃ image url mat,
    imageRef w = Some image
    ∧ events (App.processImage cv br) (st, w) =
        [ESetIsProcessing true]
        ++ [EImread image; ENewMat]
        ++ App.dispatch_events cv (App.selectedTechnique st) img dst ker
        ++ [EImshow dst; EToDataURL; ESetProcessedImage (Some url)]
        ++ [EDelete img; EDelete dst]
        ++ [ESetIsProcessing false]
    ∧ canvasRef w' = Some (Some mat)
    ∧ toDataURL_sem br (Some mat) = Ok url
    ∧ App.processedImage st' = Some url.
Proof.
  intros Hg Hok img dst ker st' w'.
  destruct (processImage_summary cv br st w Hg)
    as (image & Him & _ & _ & _ & Hcases).
  fold img dst ker st' w' in Hcases.
  destruct Hcases as [(url & mat & Hevs & _ & _ & _ & Hc & Hurl & Hst)
                     |(pre & e & _ & He & _)];
    [|by rewrite He in Hok].
  exists image, url, mat. rewrite Hevs, Hst. by repeat split.
Qed.

End Invocation.

(** ** The guard, the buttons and the download *)

Section Buttons.
Context (cv : OpenCV) (br : Browser).

Lemma truthy_true s : truthy s = true ↔ s ≠ "".
Proof.
  unfold truthy. rewrite negb_true_iff.
  split; [intros H ->; by rewrite String.eqb_refl in H|].
  intros H. by apply String.eqb_neq.
Qed.

Lemma events_nil {St A} (m : M St A) s :
  trace (snd (snd (m s))) = trace (snd s) -> events m s = [].
Proof. unfold events, events_since. intros ->. by apply drop_all. Qed.

Lemma events_app {St A} (m : M St A) s evs :
  trace (snd (snd (m s))) = trace (snd s) ++ evs -> events m s = evs.
Proof. unfold events. apply events_since_app. Qed.

Lemma processImage_guarded st w :
  App.guard_fails st w = true ->
  App.processImage cv br (st, w) = (Ok (), (st, w)).
Proof.
  intros Hg. unfold App.processImage. rewrite bind_run. cbn [get_state fst snd].
  rewrite bind_run. cbn [get_world fst snd].
  destruct (imageRef w); [|done]. by rewrite Hg.
Qed.

Lemma downloadImage_run st w url :
  App.processedImage st = Some url -> url ≠ "" ->
  let link := mkLink url "processed-image.png" in
  App.downloadImage (st, w) =
    (Ok (), (st, log (ERemoveChild link) (log (EClick link)
                  (log (EAppendChild link) (log (ECreateElement "a") w))))).
Proof.
  intros Hp Hu link. apply truthy_true in Hu.
  unfold App.downloadImage. rewrite bind_run. cbn [get_state fst snd].
  rewrite Hp. cbn [truthy_opt default]. by rewrite Hu.
Qed.

Lemma downloadImage_null st w :
  App.processedImage st = None -> App.downloadImage (st, w) = (Ok (), (st, w)).
Proof.
  intros Hp. unfold App.downloadImage. rewrite bind_run. cbn [get_state fst snd].
  by rewrite Hp.
Qed.

Lemma filter_none {A} (f : A -> bool) (l : list A) :
  Forall (λ x, f x = false) l -> List.filter f l = [].
Proof. induction 1 as [|x l Hx _ IH]; [done|]. cbn. by rewrite Hx. Qed.

(** What each handler other than the click on Process leaves in the trace. *)
Lemma handler_events a st w :
  a ≠ App.ClickProcess ->
  Forall (λ e, is_cv e = false) (events (App.handler cv br a) (st, w)).
Proof.
  intros Ha. destruct a as [files|files|i|i| |]; try done.
  - destruct files as [[|f fs]|]; events_solve.
  - destruct files as [[|f fs]|]; events_solve.
  - cbn [App.handler]. unfold events. rewrite bind_run.
    cbn [get_world fst snd].
    destruct (readers w !! i) as [f|]; events_solve.
  - cbn [App.handler]. unfold App.radio_onChange.
    destruct (App.radios !! i) as [v|]; events_solve.
  - cbn [App.handler]. unfold events. rewrite bind_run.
    cbn [get_state fst snd]. unfold App.download_disabled.
    destruct (App.processedImage st) as [url|] eqn:Hp; cbn [truthy_opt negb];
      [|events_solve].
    destruct (truthy url) eqn:Hu; cbn [negb]; [|events_solve].
    rewrite (downloadImage_run st w url) by (try apply truthy_true; done).
    events_solve.
Qed.

(** C6: [processImage] returns at once, with no call into the library and
    no other effect, when no image is uploaded, no technique is selected or
    one of the two elements is not mounted.  The Process button is disabled
    when no image or no technique is selected or a run is in progress, and a
    click on it then does nothing.  So an action that reaches the library is
    a click on Process with both inputs present. *)
Theorem processing_needs_both_inputs st w :
  (App.selectedImage st = None ∨ App.selectedTechnique st = ""
   ∨ imageRef w = None ∨ canvasRef w = None ->
   App.processImage cv br (st, w) = (Ok (), (st, w)))
  ∧ (App.selectedImage st = None ∨ App.selectedTechnique st = ""
     ∨ App.isProcessing st = true ->
     App.process_disabled st = true
     ∧ App.handler cv br App.ClickProcess (st, w) = (Ok (), (st, w)))
  ∧ (∀ a, List.filter is_cv (events (App.handler cv br a) (st, w)) ≠ [] ->
       a = App.ClickProcess
       ∧ (∃ image, App.selectedImage st = Some image ∧ image ≠ "")
       ∧ App.selectedTechnique st ≠ ""
       ∧ App.isProcessing st = false).
Proof.
  split; [|split].
  - intros H. apply processImage_guarded. unfold App.guard_fails.
    destruct H as [-> | [-> | [-> | ->]]]; cbn; by rewrite ?orb_true_r.
  - intros H.
    assert (Hd : App.process_disabled st = true).
    { unfold App.process_disabled.
      destruct H as [-> | [-> | ->]]; cbn; by rewrite ?orb_true_r. }
    split; [done|]. cbn [App.handler]. rewrite bind_run.
    cbn [get_state fst snd]. by rewrite Hd.
  - intros a Hcv.
    assert (a = App.ClickProcess ∨ a ≠ App.ClickProcess) as [->|Ha]
      by (destruct a; (by left) || (by right)).
    2:{ exfalso. by apply Hcv, filter_none, handler_events. }
    split; [done|]. revert Hcv. cbn [App.handler]. unfold events.
    rewrite bind_run. cbn [get_state fst snd].
    destruct (App.process_disabled st) eqn:Hd.
    { intros H. exfalso. apply H. events_solve. }
    intros _. unfold App.process_disabled in Hd.
    rewrite !orb_false_iff, !negb_false_iff in Hd.
    destruct Hd as [[Hi Ht] Hp]. apply truthy_true in Ht.
    destruct (App.selectedImage st) as [image|]; [|done].
    apply truthy_true in Hi. eauto.
Qed.

(** C7: after a run in which nothing throws, the canvas shows the result
    and [processedImage] is the data URL of that canvas; [downloadImage]
    then builds a link to exactly that URL, named [processed-image.png],
    and clicks it.  A data URL is never the empty string; this is asked of
    the browser.  With [processedImage] null, [downloadImage] does
    nothing. *)
Theorem download_offers_result st w :
  App.guard_fails st w = false ->
  errors (events (App.processImage cv br) (st, w)) = [] ->
  (∀ shown url, toDataURL_sem br shown = Ok url -> url ≠ "") ->
  let st' := fst (snd (App.processImage cv br (st, w))) in
  let w' := snd (snd (App.processImage cv br (st, w))) in
  (∃ mat url,
     EImshow (fresh2 (heap w)) ∈ events (App.processImage cv br) (st, w)
     ∧ canvasRef w' = Some (Some mat)
     ∧ toDataURL_sem br (Some mat) = Ok url
     ∧ App.processedImage st' = Some url
     ∧ App.download_disabled st' = false
     ∧ fst (App.downloadImage (st', w')) = Ok ()
     ∧ fst (snd (App.downloadImage (st', w'))) = st'
     ∧ events App.downloadImage (st', w') =
         [ECreateElement "a";
          EAppendChild (mkLink url "processed-image.png");
          EClick (mkLink url "processed-image.png");
          ERemoveChild (mkLink url "processed-image.png")])
  ∧ (∀ st0 w0, App.processedImage st0 = None ->
       App.downloadImage (st0, w0) = (Ok (), (st0, w0))).
Proof.
  intros Hg Hok Hurl st' w'. split; [|apply downloadImage_null].
  destruct (processImage_summary cv br st w Hg)
    as (image & _ & _ & _ & _ & Hcases).
  fold st' w' in Hcases.
  destruct Hcases as [(url & mat & Hevs & _ & _ & _ & Hc & Hu & Hst)
                     |(pre & e & _ & He & _)];
    [|by rewrite He in Hok].
  exists mat, url. rewrite Hevs. clearbody st' w'. subst st'.
  pose proof (Hurl _ _ Hu) as Hne.
  split; [rewrite !elem_of_app; right; right; set_solver|].
  do 3 (split; [done|]).
  split. { unfold App.download_disabled. cbn. by apply truthy_true in Hne as ->. }
  unfold events. rewrite (downloadImage_run _ w' url) by done.
  do 2 (split; [done|]). events_solve.
Qed.
End Buttons.

(** ** The component as a transition system *)

Section Transitions.
Context (cv : OpenCV) (br : Browser).

(** The component state a handler leaves. *)
Lemma handler_state a st w :
  let st' := fst (snd (App.handler cv br a (st, w))) in
  match a with
  | App.ReaderLoad i =>
      match readers w !! i with
      | Some f => st' = App.mkApp (Some (readAsDataURL_sem br f)) None
                          (App.selectedTechnique st) (App.isProcessing st)
      | None => st' = st
      end
  | App.RadioChange i =>
      match App.radios !! i with
      | Some v => st' = App.mkApp (App.selectedImage st) (App.processedImage st)
                          v (App.isProcessing st)
      | None => st' = st
      end
  | App.ClickProcess =>
      App.selectedImage st' = App.selectedImage st
      ∧ App.selectedTechnique st' = App.selectedTechnique st
  | _ => st' = st
  end.
Proof.
  destruct a as [files|files|i|i| |]; cbn [App.handler].
  - by destruct files as [[|f fs]|].
  - by destruct files as [[|f fs]|].
  - rewrite bind_run. cbn [get_world fst snd]. by destruct (readers w !! i).
  - unfold App.radio_onChange. by destruct (App.radios !! i).
  - rewrite bind_run. cbn [get_state fst snd].
    destruct (App.process_disabled st); [done|].
    destruct (App.guard_fails st w) eqn:Hg.
    + by rewrite processImage_guarded.
    + destruct (processImage_summary cv br st w Hg)
        as (_ & _ & _ & _ & _ & [(? & ? & _ & _ & _ & _ & _ & _ & ->)
                                |(? & ? & _ & _ & _ & _ & -> & _)]); done.
  - rewrite bind_run. cbn [get_state fst snd].
    destruct (App.download_disabled st) eqn:Hd; [done|].
    unfold App.download_disabled in Hd. apply negb_false_iff in Hd.
    destruct (App.processedImage st) as [url|] eqn:Hp; [|done].
    by rewrite (downloadImage_run st w url) by (try apply truthy_true; done).
Qed.

Lemma step_state a s :
  fst (App.step cv br a s) = fst (snd (App.handler cv br a s)).
Proof.
  unfold App.step, App.commit. by destruct (App.handler cv br a s) as [r [st w]].
Qed.

(** After every render the image element is the one of the current upload. *)
Lemma step_imageRef a s :
  imageRef (snd (App.step cv br a s)) =
    if truthy_opt (App.selectedImage (fst (App.step cv br a s)))
    then App.selectedImage (fst (App.step cv br a s)) else None.
Proof.
  unfold App.step, App.commit. by destruct (App.handler cv br a s) as [r [st w]].
Qed.

Lemma reachable_imageRef s :
  App.reachable cv br s ->
  imageRef (snd s) =
    if truthy_opt (App.selectedImage (fst s)) then App.selectedImage (fst s)
    else None.
Proof. destruct 1 as [|a s _]; [done|apply step_imageRef]. Qed.

Lemma reachable_technique s :
  App.reachable cv br s ->
  App.selectedTechnique (fst s) = "" ∨ App.selectedTechnique (fst s) ∈ App.radios.
Proof.
  induction 1 as [|a [st w] _ IH]; [by left|].
  rewrite step_state. pose proof (handler_state a st w) as Hs.
  cbn [fst] in IH.
  destruct a as [files|files|i|i| |]; cbn beta iota zeta in Hs;
    try (by rewrite Hs).
  - destruct (readers w !! i); by rewrite Hs.
  - destruct (App.radios !! i) as [v|] eqn:Hv; rewrite Hs; [|done].
    right. cbn. by eapply list_elem_of_lookup_2.
  - by destruct Hs as [_ ->].
Qed.

(** C9: in every reachable state [selectedTechnique] is the empty string or
    one of the seven names, since only the radio inputs assign it; so when
    the guard of [processImage] passes, the switch selects a clause, and it
    is the only clause with that label. *)
Theorem selectedTechnique_is_enumerated s :
  App.reachable cv br s ->
  let t := App.selectedTechnique (fst s) in
  (t = ""
   ∨ t ∈ ["Gaussian Blur"; "Median Filter"; "Canny Edge Detection";
          "Laplacian Spatial Filter"; "Binary Thresholding";
          "Otsu's Thresholding"; "Morphological Cleaning"])
  ∧ (App.guard_fails (fst s) (snd s) = false ->
     ∃ c, App.switch_on t = Some c
          ∧ App.case_label c = t
          ∧ ∀ c', App.case_label c' = t -> c' = c).
Proof.
  intros Hr t. pose proof (reachable_technique s Hr) as Ht. fold t in Ht.
  split; [exact Ht|]. intros Hg.
  apply guard_passes in Hg as (_ & Hn & _). fold t in Hn.
  apply truthy_true in Hn. destruct Ht as [Ht|Ht]; [done|].
  destruct (switch_on_radios t Ht) as (c & Hc & Hl).
  exists c. repeat split; try done.
  intros c' Hc'. apply case_label_inj. by rewrite Hl.
Qed.
End Transitions.

Section Upload.
Context (cv : OpenCV) (br : Browser).

Lemma step_keeps_null a s :
  a ≠ App.ClickProcess ->
  App.processedImage (fst s) = None ->
  App.processedImage (fst (App.step cv br a s)) = None.
Proof.
  destruct s as [st w]. intros Ha Hp. rewrite step_state.
  pose proof (handler_state cv br a st w) as Hs.
  destruct a as [files|files|i|i| |]; cbn beta iota zeta in Hs;
    try done; try (by rewrite Hs).
  - destruct (readers w !! i); by rewrite Hs.
  - destruct (App.radios !! i); by rewrite Hs.
Qed.

Lemma run_keeps_null acts s :
  Forall (λ a, a ≠ App.ClickProcess) acts ->
  App.processedImage (fst s) = None ->
  App.processedImage (fst (App.run cv br acts s)) = None.
Proof.
  intros Hacts. revert s.
  induction Hacts as [|a acts Ha _ IH]; intros s Hp; [done|].
  cbn. apply IH. by apply step_keeps_null.
Qed.

(** C8: the file picker and the drop zone hand the file to the same
    [handleImageUpload]; when the read completes, [selectedImage] is the
    data URL of the new file and [processedImage] is null, and it stays
    null, with nothing shown in the output panel and the download disabled,
    until Process is clicked again.  A run started by that click reads the
    image element of the current upload. *)
Theorem upload_resets_output :
  (∀ st w f fs,
     App.fileInput_onChange (Some (f :: fs)) (st, w)
       = App.handleImageUpload (Some f) (st, w)
     ∧ App.handleDrop (Some (f :: fs)) (st, w)
       = App.handleImageUpload (Some f) (st, w)
     ∧ readers (snd (snd (App.handleImageUpload (Some f) (st, w))))
       = readers w ++ [f])
  ∧ (∀ st w result,
       let st' := fst (snd (App.reader_onload result (st, w))) in
       App.selectedImage st' = Some result ∧ App.processedImage st' = None)
  ∧ (∀ st w i f,
       readers w !! i = Some f ->
       let s' := App.step cv br (App.ReaderLoad i) (st, w) in
       App.selectedImage (fst s') = Some (readAsDataURL_sem br f)
       ∧ App.processedImage (fst s') = None
       ∧ ∀ acts, Forall (λ a, a ≠ App.ClickProcess) acts ->
           let s'' := App.run cv br acts s' in
           App.processedImage (fst s'') = None
           ∧ App.output_shown (fst s'') = None
           ∧ App.download_disabled (fst s'') = true)
  ∧ (∀ s image,
       App.reachable cv br s -> imageRef (snd s) = Some image ->
       App.selectedImage (fst s) = Some image).
Proof.
  split; [by intros|]. split; [by intros|]. split.
  - intros st w i f Hf s'.
    assert (Hst : fst s' = App.mkApp (Some (readAsDataURL_sem br f)) None
                    (App.selectedTechnique st) (App.isProcessing st)).
    { subst s'. rewrite step_state.
      pose proof (handler_state cv br (App.ReaderLoad i) st w) as Hs.
      cbn beta iota zeta in Hs. by rewrite Hf in Hs. }
    rewrite Hst. cbn [App.selectedImage App.processedImage].
    do 2 (split; [done|]). intros acts Hacts.
    set (s'' := App.run cv br acts s').
    assert (Hp : App.processedImage (fst s'') = None)
      by (apply run_keeps_null; [done|by rewrite Hst]).
    unfold App.output_shown, App.download_disabled. by rewrite Hp.
  - intros s image Hr Hi. rewrite (reachable_imageRef cv br s Hr) in Hi.
    by destruct (truthy_opt (App.selectedImage (fst s))).
Qed.
End Upload.

(** ** The dark-mode component against the light one *)

Section Simulation.
Context (cv : OpenCV) (br : Browser).

Lemma sim_bind {A B} s (md : M AppDark.AppState A) (ma : M App.AppState A)
    (fd : A -> M AppDark.AppState B) (fa : A -> M App.AppState B) :
  sim_at s md ma ->
  (∀ a s', md s = (Ok a, s') -> sim_at s' (fd a) (fa a)) ->
  sim_at s (md ≫= fd) (ma ≫= fa).
Proof.
  unfold sim_at. intros [Hm Hd] Hf. rewrite !bind_run, Hm.
  destruct (md s) as [[a|e] s'] eqn:Hmd; cbn [fst snd] in *; [|done].
  destruct (Hf a s' eq_refl) as [Hfa Hfd].
  split; [done|]. by rewrite Hfd.
Qed.

Lemma sim_get_state {B} s (fd : AppDark.AppState -> M AppDark.AppState B)
    (fa : App.AppState -> M App.AppState B) :
  sim_at s (fd (fst s)) (fa (erase (fst s))) ->
  sim_at s (get_state ≫= fd) (get_state ≫= fa).
Proof. unfold sim_at. by rewrite !bind_run. Qed.

Lemma sim_get_world {B} s (fd : World -> M AppDark.AppState B)
    (fa : World -> M App.AppState B) :
  sim_at s (fd (snd s)) (fa (snd s)) ->
  sim_at s (get_world ≫= fd) (get_world ≫= fa).
Proof. unfold sim_at. by rewrite !bind_run. Qed.

Lemma sim_mret {A} (a : A) : sim (mret a) (mret a).
Proof. by intros [st w]. Qed.

Lemma sim_emit e : sim (emit e) (emit e).
Proof. by intros [st w]. Qed.

Lemma sim_cv_imread el : sim (cv_imread cv el) (cv_imread cv el).
Proof.
  intros [st w]. unfold sim_at. rewrite !cv_imread_run.
  by destruct (imread_sem cv el).
Qed.

Lemma sim_new_Mat : sim new_Mat new_Mat.
Proof. by intros [st w]. Qed.

Lemma sim_cv_call c : sim (cv_call cv c) (cv_call cv c).
Proof.
  intros [st w].
  unfold sim_at, cv_call, alloc, emit, modify_world, get_world, lift_res, throw,
    mbind, M_bind, mret, M_ret; cbn.
  destruct (forallb _ _); [|done].
  destruct (call_sem cv c (heap w)); [|done]. by destruct (destination c).
Qed.

Lemma sim_cv_do c : sim (cv_do cv c) (cv_do cv c).
Proof.
  intros s. apply sim_bind; [apply sim_cv_call|]. intros; apply sim_mret.
Qed.

Lemma sim_cv_getStructuringElement shape ksize :
  sim (cv_getStructuringElement cv shape ksize)
      (cv_getStructuringElement cv shape ksize).
Proof.
  intros s. apply sim_bind; [apply sim_cv_call|].
  intros [h|] s' _; [apply sim_mret|by destruct s'].
Qed.

Lemma sim_Mat_delete h : sim (Mat_delete h) (Mat_delete h).
Proof.
  intros [st w].
  unfold sim_at, Mat_delete, emit, modify_world, get_world, throw,
    mbind, M_bind, mret, M_ret; cbn.
  by destruct (live (heap w) h).
Qed.

Lemma sim_cv_imshow h : sim (cv_imshow cv h) (cv_imshow cv h).
Proof.
  intros [st w].
  unfold sim_at, cv_imshow, emit, modify_world, get_world, lift_res, throw,
    mbind, M_bind, mret, M_ret; cbn.
  destruct (heap w !! h) as [mat|]; [|done]. by destruct (imshow_sem cv mat).
Qed.

Lemma sim_canvas_toDataURL : sim (canvas_toDataURL br) (canvas_toDataURL br).
Proof.
  intros [st w].
  unfold sim_at, canvas_toDataURL, emit, modify_world, get_world, lift_res, throw,
    mbind, M_bind, mret, M_ret; cbn.
  destruct (canvasRef w) as [shown|]; [|done].
  by destruct (toDataURL_sem br shown).
Qed.

Lemma sim_console_error msg e : sim (console_error msg e) (console_error msg e).
Proof. by intros [st w]. Qed.

Lemma sim_setProcessedImage v :
  sim (AppDark.setProcessedImage v) (App.setProcessedImage v).
Proof. by intros [st w]. Qed.

Lemma sim_setIsProcessing b :
  sim (AppDark.setIsProcessing b) (App.setIsProcessing b).
Proof. by intros [st w]. Qed.

Lemma sim_try_catch_finally s bd ba hd ha fd fa :
  sim_at s bd ba ->
  (∀ e, sim (hd e) (ha e)) -> sim fd fa ->
  sim_at s (try_catch_finally bd hd fd) (try_catch_finally ba ha fa).
Proof.
  unfold sim, sim_at, try_catch_finally. intros [Hb Hbd] Hh Hf. rewrite Hb.
  destruct (bd s) as [[[]|e] s1]; cbn [fst snd] in *.
  - destruct (Hf s1) as [-> Hfd].
    destruct (fd s1) as [[[]|e] s3]; cbn [fst snd] in *;
      (split; [done|by rewrite Hfd]).
  - destruct (Hh e s1) as [-> Hhd].
    destruct (hd e s1) as [r2 s2]; cbn [fst snd] in *.
    destruct (Hf s2) as [-> Hfd].
    destruct (fd s2) as [[[]|e'] s3]; cbn [fst snd] in *;
      (split; [done|by rewrite Hfd, Hhd]).
Qed.

Lemma switch_on_erase t : App.switch_on t = erase_case <$> AppDark.switch_on t.
Proof.
  unfold App.switch_on, AppDark.switch_on, App.cases, AppDark.cases. cbn.
  repeat (destruct (String.eqb t _); [done|]). done.
Qed.

Lemma sim_case_body c img dst :
  sim (AppDark.case_body cv c img dst) (App.case_body cv (erase_case c) img dst).
Proof.
  intros s. destruct c; cbn [erase_case AppDark.case_body App.case_body];
    repeat first
      [ apply sim_cv_do | apply sim_Mat_delete
      | apply sim_bind;
        [ first [apply sim_cv_do | apply sim_cv_getStructuringElement]
        | intros ? ? _ ] ].
Qed.

Lemma sim_dispatch t img dst :
  sim (AppDark.dispatch cv t img dst) (App.dispatch cv t img dst).
Proof.
  intros s. unfold AppDark.dispatch, App.dispatch. rewrite switch_on_erase.
  destruct (AppDark.switch_on t) as [c|]; [apply sim_case_body|apply sim_mret].
Qed.

Lemma sim_processImage_try image :
  sim (AppDark.processImage_try cv br image) (App.processImage_try cv br image).
Proof.
  intros s. unfold AppDark.processImage_try, App.processImage_try.
  apply sim_get_state.
  apply sim_bind; [apply sim_cv_imread|]. intros img s1 _.
  apply sim_bind; [apply sim_new_Mat|]. intros dst s2 _.
  apply sim_bind; [apply sim_dispatch|]. intros _ s3 _.
  apply sim_bind; [apply sim_cv_imshow|]. intros _ s4 _.
  apply sim_bind; [apply sim_canvas_toDataURL|]. intros url s5 _.
  apply sim_bind; [apply sim_setProcessedImage|]. intros _ s6 _.
  apply sim_bind; [apply sim_Mat_delete|]. intros _ s7 _.
  apply sim_Mat_delete.
Qed.

Lemma sim_processImage :
  sim (AppDark.processImage cv br) (App.processImage cv br).
Proof.
  intros s. unfold AppDark.processImage, App.processImage.
  apply sim_get_state. apply sim_get_world.
  destruct (imageRef (snd s)) as [image|]; [|apply sim_mret].
  change (App.guard_fails (erase (fst s)) (snd s))
    with (AppDark.guard_fails (fst s) (snd s)).
  destruct (AppDark.guard_fails (fst s) (snd s)); [apply sim_mret|].
  apply sim_bind; [apply sim_setIsProcessing|]. intros _ s1 _.
  apply sim_try_catch_finally;
    [apply sim_processImage_try|intros; apply sim_console_error
    |apply sim_setIsProcessing].
Qed.

Lemma sim_downloadImage : sim AppDark.downloadImage App.downloadImage.
Proof.
  intros [st w]. unfold AppDark.downloadImage, App.downloadImage.
  apply sim_get_state. cbn [fst erase App.processedImage].
  destruct (truthy_opt (AppDark.processedImage st)); [|apply sim_mret].
  repeat (apply sim_bind; [apply sim_emit|intros ? ? _]). apply sim_emit.
Qed.

(** Every handler but the toggle runs alike in the two components. *)
Lemma sim_handler a a' :
  erase_action a = Some a' ->
  sim (AppDark.handler cv br a) (App.handler cv br a').
Proof.
  intros Ha [st w].
  destruct a as [files|files|i|i| | |]; cbn in Ha; try discriminate Ha;
    injection Ha as <-; cbn [AppDark.handler App.handler].
  - by destruct files as [[|f fs]|].
  - by destruct files as [[|f fs]|].
  - apply sim_get_world. cbn [snd].
    by destruct (readers w !! i).
  - unfold AppDark.radio_onChange, App.radio_onChange.
    change AppDark.radios with App.radios. by destruct (App.radios !! i).
  - apply sim_get_state. cbn [fst].
    change (App.process_disabled (erase st)) with (AppDark.process_disabled st).
    destruct (AppDark.process_disabled st);
      [apply sim_mret|apply sim_processImage].
  - apply sim_get_state. cbn [fst].
    change (App.download_disabled (erase st)) with (AppDark.download_disabled st).
    destruct (AppDark.download_disabled st);
      [apply sim_mret|apply sim_downloadImage].
Qed.

(** So does the render that follows, and hence every step. *)
Lemma sim_step a a' s :
  erase_action a = Some a' ->
  App.step cv br a' (erase (fst s), snd s)
    = (erase (fst (AppDark.step cv br a s)), snd (AppDark.step cv br a s)).
Proof.
  intros Ha. destruct (sim_handler a a' Ha s) as [Hsim _].
  unfold App.step, AppDark.step. rewrite Hsim.
  by destruct (AppDark.handler cv br a s) as [r [st' w']].
Qed.

(** The toggle changes the theme and nothing else of the state; in the
    world it only leaves its event. *)
Lemma toggle_only_theme st w :
  let s' := AppDark.step cv br AppDark.ToggleDarkMode (st, w) in
  erase (fst s') = erase st
  ∧ AppDark.isDarkMode (fst s') = negb (AppDark.isDarkMode st)
  ∧ heap (snd s') = heap w ∧ canvasRef (snd s') = Some (default None (canvasRef w))
  ∧ trace (snd s') = trace w ++ [ESetIsDarkMode (negb (AppDark.isDarkMode st))].
Proof. done. Qed.

(** C10: from states that differ only in the theme, the [processImage] of
    the dark-mode component and that of the light one complete alike, leave
    the same world (so the same calls with the same arguments, the same
    canvas and heap) and the same state, the processed image included; the
    theme is left as it was, and its value has no influence on any of
    this. *)
Theorem dark_mode_same_processing st w :
  let rd := AppDark.processImage cv br (st, w) in
  let ra := App.processImage cv br (erase st, w) in
  ra = (fst rd, (erase (fst (snd rd)), snd (snd rd)))
  ∧ events (AppDark.processImage cv br) (st, w)
    = events (App.processImage cv br) (erase st, w)
  ∧ cv_calls (events (AppDark.processImage cv br) (st, w))
    = cv_calls (events (App.processImage cv br) (erase st, w))
  ∧ AppDark.processedImage (fst (snd rd)) = App.processedImage (fst (snd ra))
  ∧ AppDark.isDarkMode (fst (snd rd)) = AppDark.isDarkMode st
  ∧ ∀ b,
      let st_b := AppDark.mkApp (AppDark.selectedImage st)
                    (AppDark.processedImage st) (AppDark.selectedTechnique st)
                    (AppDark.isProcessing st) b in
      let rb := AppDark.processImage cv br (st_b, w) in
      fst rb = fst rd ∧ snd (snd rb) = snd (snd rd)
      ∧ erase (fst (snd rb)) = erase (fst (snd rd)).
Proof.
  intros rd ra.
  destruct (sim_processImage (st, w)) as [Hsim Hd]. cbn [fst snd] in Hsim, Hd.
  fold rd ra in Hsim. fold rd in Hd.
  assert (Hev : events (AppDark.processImage cv br) (st, w)
                = events (App.processImage cv br) (erase st, w)).
  { unfold events. cbn [fst snd]. fold rd ra. by rewrite Hsim. }
  split; [done|]. split; [done|]. split; [by rewrite Hev|].
  split; [by rewrite Hsim|]. split; [done|].
  intros b st_b rb.
  destruct (sim_processImage (st_b, w)) as [Hsimb _]. cbn [fst snd] in Hsimb.
  fold rb in Hsimb. change (erase st_b) with (erase st) in Hsimb.
  fold ra in Hsimb. rewrite Hsim in Hsimb.
  pose proof (f_equal fst Hsimb) as H1.
  pose proof (f_equal (λ x, fst (snd x)) Hsimb) as H2.
  pose proof (f_equal (λ x, snd (snd x)) Hsimb) as H3.
  cbn [fst snd] in H1, H2, H3. by repeat split.
Qed.
End Simulation.

(** ** Concrete runs *)


(** C2, as first stated, fails: [cv.GaussianBlur] throws after the source
    and the destination were allocated; the [catch] logs, nothing is
    deleted, and both matrices are still live when the invocation ends.
    Likewise the structuring element stays live when [cv.morphologyEx]
    throws. *)
Lemma buffers_leak_when_call_throws :
  App.guard_fails (fst (sample_state "Gaussian Blur")) sample_world = false
  ∧ events (App.processImage (sample_cv on_GaussianBlur) sample_br)
      (sample_state "Gaussian Blur")
    = [ESetIsProcessing true; EImread "data:image/png;base64,QUJD"; ENewMat;
       ECv (GaussianBlur 1 2 (mkSize 5 5) 0 0 4);
       EConsoleError "Error processing image:" "cv exception";
       ESetIsProcessing false]
  ∧ heap sample_world = ∅
  ∧ heap (snd (snd throwing_run)) !! 1%positive
    = Some (mkMat 1 1 24 [10; 20; 30; 255])
  ∧ heap (snd (snd throwing_run)) !! 2%positive = Some (mkMat 0 0 0 [])
  ∧ heap (snd (snd (App.processImage (sample_cv on_morphologyEx) sample_br
                      (sample_state "Morphological Cleaning")))) !! 3%positive
    = Some (mkMat 1 1 0 [7])
  ∧ heap (snd (snd throwing_run)) ≠ heap sample_world.
Proof.
  do 6 (split; [by vm_compute|]).
  intros H. apply (f_equal (λ h, h !! 1%positive)) in H. by vm_compute in H.
Qed.

(** C2, as amended, at the morphological clause. *)
Lemma buffers_released_on_success_witness :
  App.guard_fails (fst (sample_state "Morphological Cleaning")) sample_world = false
  ∧ errors (events (App.processImage (sample_cv never) sample_br)
              (sample_state "Morphological Cleaning")) = []
  ∧ heap (snd (snd (App.processImage (sample_cv never) sample_br
                      (sample_state "Morphological Cleaning"))))
    = heap sample_world.
Proof.
  split; [reflexivity|]. split; [by vm_compute|].
  refine (proj1 (buffers_released_on_success (sample_cv never) sample_br
    (fst (sample_state "Morphological Cleaning")) sample_world eq_refl _)).
  by vm_compute.
Defined.

(** C3 at the Canny clause. *)
Lemma processImage_steps_in_order_witness :
  ∃ image url mat,
    imageRef sample_world = Some image
    ∧ events (App.processImage (sample_cv never) sample_br)
        (sample_state "Canny Edge Detection")
      = [ESetIsProcessing true]
        ++ [EImread image; ENewMat]
        ++ [ECv (cvtColor 1 1 11); ECv (Canny 1 2 50 150 3 false)]
        ++ [EImshow 2; EToDataURL; ESetProcessedImage (Some url)]
        ++ [EDelete 1; EDelete 2]
        ++ [ESetIsProcessing false]
    ∧ canvasRef (snd (snd (App.processImage (sample_cv never) sample_br
                             (sample_state "Canny Edge Detection"))))
      = Some (Some mat)
    ∧ toDataURL_sem sample_br (Some mat) = Ok url
    ∧ App.processedImage
        (fst (snd (App.processImage (sample_cv never) sample_br
                     (sample_state "Canny Edge Detection"))))
      = Some url.
Proof.
  refine (processImage_steps_in_order (sample_cv never) sample_br
    (fst (sample_state "Canny Edge Detection")) sample_world eq_refl _).
  by vm_compute.
Defined.


(** C6 on the freshly mounted component. *)
Lemma processing_needs_both_inputs_witness :
  App.selectedImage App.initial = None
  ∧ App.processImage (sample_cv never) sample_br (App.initial, sample_world)
    = (Ok (), (App.initial, sample_world))
  ∧ App.process_disabled App.initial = true.
Proof.
  split; [reflexivity|]. split.
  - apply (proj1 (processing_needs_both_inputs (sample_cv never) sample_br
      App.initial sample_world)). left. reflexivity.
  - apply (proj1 (proj2 (processing_needs_both_inputs (sample_cv never)
      sample_br App.initial sample_world))). left. reflexivity.
Defined.

(** C7 after a run of the median clause. *)
Lemma download_offers_result_witness :
  App.guard_fails (fst (sample_state "Median Filter")) sample_world = false
  ∧ ∃ mat url,
      toDataURL_sem sample_br (Some mat) = Ok url
      ∧ App.processedImage
          (fst (snd (App.processImage (sample_cv never) sample_br
                       (sample_state "Median Filter")))) = Some url
      ∧ events App.downloadImage
          (fst (snd (App.processImage (sample_cv never) sample_br
                       (sample_state "Median Filter"))),
           snd (snd (App.processImage (sample_cv never) sample_br
                       (sample_state "Median Filter"))))
        = [ECreateElement "a";
           EAppendChild (mkLink url "processed-image.png");
           EClick (mkLink url "processed-image.png");
           ERemoveChild (mkLink url "processed-image.png")].
Proof.
  split; [reflexivity|].
  destruct (proj1 (download_offers_result (sample_cv never) sample_br
    (fst (sample_state "Median Filter")) sample_world eq_refl
    ltac:(by vm_compute)
    ltac:(intros shown url H; injection H as <-; discriminate)))
    as (mat & url & _ & _ & Hu & Hp & _ & _ & _ & Hev).
  exists mat, url. split; [exact Hu|]. split; [exact Hp|exact Hev].
Defined.

(** C8 after a drop: the read ends, a technique is chosen, Download is
    clicked. *)
Lemma upload_resets_output_witness :
  readers (set_readers ["cat.png"] sample_world) !! 0%nat = Some "cat.png"
  ∧ App.processedImage
      (fst (App.run (sample_cv never) sample_br
              [App.RadioChange 1; App.ClickDownload]
              (App.step (sample_cv never) sample_br (App.ReaderLoad 0)
                 (fst (sample_state "Canny Edge Detection"),
                  set_readers ["cat.png"] sample_world)))) = None.
Proof.
  split; [reflexivity|].
  refine (proj1 (proj2 (proj2 (proj1 (proj2 (proj2
    (upload_resets_output (sample_cv never) sample_br)))
    (fst (sample_state "Canny Edge Detection"))
    (set_readers ["cat.png"] sample_world)
    0%nat "cat.png" eq_refl)) [App.RadioChange 1; App.ClickDownload] _)).
  by repeat constructor.
Defined.

(** C9 in the state reached by a drop, the end of the read and the choice
    of the third radio input. *)
Lemma selectedTechnique_is_enumerated_witness :
  App.reachable (sample_cv never) sample_br sample_reached
  ∧ App.guard_fails (fst sample_reached) (snd sample_reached) = false
  ∧ ∃ c, App.switch_on (App.selectedTechnique (fst sample_reached)) = Some c
         ∧ App.case_label c = App.selectedTechnique (fst sample_reached)
         ∧ ∀ c', App.case_label c' = App.selectedTechnique (fst sample_reached)
                 -> c' = c.
Proof.
  assert (Hr : App.reachable (sample_cv never) sample_br sample_reached)
    by (repeat apply App.reachable_step; apply App.reachable_mounted).
  split; [exact Hr|]. split; [by vm_compute|].
  apply (proj2 (selectedTechnique_is_enumerated (sample_cv never) sample_br
    sample_reached Hr)).
  by vm_compute.
Defined.

(** The dark-mode component on the same input, in either theme. *)
Example dark_mode_run dark :
  let r := AppDark.processImage (sample_cv never) sample_br
             (sample_dark_state "Otsu's Thresholding" dark) in
  AppDark.processedImage (fst (snd r)) = Some "data:image/png;base64,AAAA"
  ∧ AppDark.isDarkMode (fst (snd r)) = dark
  ∧ cv_calls (trace (snd (snd r))) = [cvtColor 1 1 11; threshold 1 2 0 255 8].
Proof. by destruct dark; vm_compute. Qed.

(** * Further properties of the component *)

(** ** What the handlers leave in the trace and in the world *)

Section HandlerEffects.
Context (cv : OpenCV) (br : Browser).

(** The events of each handler other than the click on Process; none of
    them touches the heap or the canvas. *)
Lemma handler_other_run a st w :
  a ≠ App.ClickProcess ->
  ∃ evs,
    trace (snd (snd (App.handler cv br a (st, w)))) = trace w ++ evs
    ∧ heap (snd (snd (App.handler cv br a (st, w)))) = heap w
    ∧ canvasRef (snd (snd (App.handler cv br a (st, w)))) = canvasRef w
    ∧ evs =
      match a with
      | App.FileInputChange files | App.Drop files =>
          match files with
          | Some (f :: _) => [EReadAsDataURL f]
          | _ => []
          end
      | App.ReaderLoad i =>
          match readers w !! i with
          | Some f => [ESetSelectedImage (Some (readAsDataURL_sem br f));
                       ESetProcessedImage None]
          | None => []
          end
      | App.RadioChange i =>
          match App.radios !! i with
          | Some v => [ESetSelectedTechnique v]
          | None => []
          end
      | App.ClickDownload =>
          if App.download_disabled st then []
          else let link := mkLink (default "" (App.processedImage st))
                             "processed-image.png" in
               [ECreateElement "a"; EAppendChild link; EClick link;
                ERemoveChild link]
      | App.ClickProcess => []
      end.
Proof.
  intros Ha.
  destruct a as [files|files|i|i| |]; try done;
    cbn [App.handler]; rewrite ?bind_run; cbn [get_world get_state fst snd].
  - destruct files as [[|f fs]|]; handler_solve.
  - destruct files as [[|f fs]|]; handler_solve.
  - destruct (readers w !! i) as [f|]; handler_solve.
  - unfold App.radio_onChange. destruct (App.radios !! i) as [v|]; handler_solve.
  - destruct (App.download_disabled st) eqn:Hd; [handler_solve|].
    unfold App.download_disabled in Hd. apply negb_false_iff in Hd.
    destruct (App.processedImage st) as [url|] eqn:Hp; [|done].
    rewrite (downloadImage_run st w url) by (try apply truthy_true; done).
    handler_solve.
Qed.

(** A click on Process either does nothing (button disabled, or guard not
    passed) or is an invocation of [processImage] that passes the guard. *)
Lemma click_process_cases st w :
  App.handler cv br App.ClickProcess (st, w) = (Ok (), (st, w))
  ∨ (App.process_disabled st = false ∧ App.guard_fails st w = false
     ∧ App.handler cv br App.ClickProcess (st, w) = App.processImage cv br (st, w)).
Proof.
  cbn [App.handler]. rewrite bind_run. cbn [get_state fst snd].
  destruct (App.process_disabled st); [by left|].
  destruct (App.guard_fails st w) eqn:Hg; [left|by right].
  by apply processImage_guarded.
Qed.

Lemma step_world a s :
  heap (snd (App.step cv br a s)) = heap (snd (snd (App.handler cv br a s)))
  ∧ trace (snd (App.step cv br a s)) = trace (snd (snd (App.handler cv br a s)))
  ∧ is_Some (canvasRef (snd (App.step cv br a s))).
Proof.
  unfold App.step, App.commit.
  destruct (App.handler cv br a s) as [r [st w]]. by repeat split.
Qed.
End HandlerEffects.

(** ** Invariants of the reachable states *)

Section Invariants.
Context (cv : OpenCV) (br : Browser).

Lemma handler_other_isProcessing a st w :
  a ≠ App.ClickProcess ->
  App.isProcessing (fst (snd (App.handler cv br a (st, w)))) = App.isProcessing st.
Proof.
  intros Ha. pose proof (handler_state cv br a st w) as Hs.
  destruct a as [files|files|i|i| |]; cbn beta iota zeta in Hs; try done;
    try (by rewrite Hs).
  - destruct (readers w !! i); by rewrite Hs.
  - destruct (App.radios !! i); by rewrite Hs.
Qed.

Lemma reachable_idle s :
  App.reachable cv br s -> App.isProcessing (fst s) = false.
Proof.
  induction 1 as [|a [st w] _ IH]; [done|]. cbn [fst] in IH.
  rewrite step_state.
  assert (a = App.ClickProcess ∨ a ≠ App.ClickProcess) as [->|Ha]
    by (destruct a; (by left) || (by right)).
  2: by rewrite handler_other_isProcessing.
  destruct (click_process_cases cv br st w) as [->|(_ & Hg & ->)]; [done|].
  destruct (processImage_summary cv br st w Hg)
    as (_ & _ & _ & _ & _ & [(? & ? & _ & _ & _ & _ & _ & _ & ->)
                            |(? & ? & _ & _ & _ & _ & -> & _)]); done.
Qed.

(** X1: [isProcessing] is false in every state the component can be in
    between two events: [processImage] has no [await], so whatever it sets
    before the [try] it resets in the [finally] before the next render.
    The Process button is therefore disabled for want of an input only. *)
Theorem reachable_not_processing s :
  App.reachable cv br s ->
  App.isProcessing (fst s) = false
  ∧ App.process_disabled (fst s)
    = negb (truthy_opt (App.selectedImage (fst s)))
      || negb (truthy (App.selectedTechnique (fst s))).
Proof.
  intros Hr. pose proof (reachable_idle s Hr) as Hp. split; [done|].
  unfold App.process_disabled. by rewrite Hp, orb_false_r.
Qed.

Lemma reachable_canvasRef s :
  App.reachable cv br s -> is_Some (canvasRef (snd s)).
Proof. destruct 1 as [|a s _]; [by eexists|apply step_world]. Qed.

(** X2: in a reachable state the guard of [processImage] fails exactly when
    the Process button is disabled: the two elements are always mounted
    when an image is selected, and no run is ever in progress.  So a click
    on the enabled button always enters the [try] block. *)
Theorem guard_agrees_with_button s :
  App.reachable cv br s ->
  App.guard_fails (fst s) (snd s) = App.process_disabled (fst s)
  ∧ (App.process_disabled (fst s) = false ->
     App.handler cv br App.ClickProcess s = App.processImage cv br s
     ∧ [ESetIsProcessing true]
         `prefix_of` events (App.handler cv br App.ClickProcess) s).
Proof.
  intros Hr. destruct s as [st w]. cbn [fst snd].
  pose proof (reachable_idle _ Hr) as Hp.
  pose proof (reachable_imageRef cv br _ Hr) as Hi.
  pose proof (reachable_canvasRef _ Hr) as Hc. cbn [fst snd] in *.
  assert (Heq : App.guard_fails st w = App.process_disabled st).
  { unfold App.guard_fails, App.process_disabled. rewrite Hp, Hi.
    rewrite (bool_decide_eq_true_2 _ Hc).
    destruct (App.selectedImage st) as [image|]; cbn; [|done].
    destruct (truthy image); cbn; [|done].
    by rewrite !orb_false_r. }
  split; [done|]. intros Hd.
  destruct (click_process_cases cv br st w) as [Hno|(_ & Hg & Hrun)].
  { exfalso. revert Hno. cbn [App.handler]. rewrite bind_run.
    cbn [get_state fst snd]. rewrite Hd. rewrite <- Heq in Hd.
    destruct (processImage_run cv br st w) with (image := default "" (imageRef w))
      as (st' & w' & evs & -> & Ht & _); [done| |].
    - destruct (guard_passes _ _ Hd) as (_ & _ & [image ->] & _). done.
    - intros [= _ Hw]. rewrite <- Hw in Ht at 1.
      apply (f_equal length) in Ht. rewrite !length_app in Ht. cbn in Ht. lia. }
  split; [done|]. unfold events. rewrite Hrun.
  destruct (guard_passes _ _ Hg) as (_ & _ & [image Him] & _).
  destruct (processImage_run cv br st w image Hg Him)
    as (st' & w' & evs & -> & Ht & _).
  cbn [fst snd]. rewrite (events_since_app _ _ _ Ht). by eexists.
Qed.

Lemma reachable_heap_empty s :
  App.reachable cv br s -> errors (trace (snd s)) = [] -> heap (snd s) = ∅.
Proof.
  induction 1 as [|a [st w] _ IH]; [done|]. cbn [snd] in IH.
  destruct (step_world cv br a (st, w)) as (-> & -> & _).
  assert (a = App.ClickProcess ∨ a ≠ App.ClickProcess) as [->|Ha]
    by (destruct a; (by left) || (by right)).
  - destruct (click_process_cases cv br st w) as [->|(_ & Hg & ->)]; [done|].
    destruct (guard_passes _ _ Hg) as (_ & _ & [image Him] & _).
    destruct (processImage_run cv br st w image Hg Him)
      as (st' & w' & evs & -> & Ht & _ & _ & Hcases).
    cbn [fst snd]. rewrite Ht. unfold errors. rewrite !omap_app.
    intros He. apply app_eq_nil in He as [He He'].
    apply app_eq_nil in He' as [_ He']. apply app_eq_nil in He' as [He' _].
    destruct Hcases as [(? & ? & _ & -> & _)|(pre & e & -> & _)]; [by apply IH|].
    rewrite omap_app in He'. by apply app_eq_nil in He' as [_ ?].
  - destruct (handler_other_run cv br a st w Ha) as (evs & -> & -> & _).
    unfold errors. rewrite omap_app. intros He.
    apply app_eq_nil in He as [He _]. by apply IH.
Qed.

(** X3: as long as no error has been logged, no native matrix is live
    between two events: every run released what it allocated, and no
    other handler allocates. *)
Theorem no_leak_without_error s :
  App.reachable cv br s -> errors (trace (snd s)) = [] -> heap (snd s) = ∅.
Proof. apply reachable_heap_empty. Qed.

(** X4: [processImage] never releases a matrix it did not allocate:
    whatever was live before the invocation is live after it, whether the
    guard passes or not and whether a step throws or not. *)
Theorem processImage_keeps_live st w x :
  is_Some (heap w !! x) ->
  is_Some (heap (snd (snd (App.processImage cv br (st, w)))) !! x).
Proof.
  intros Hx. destruct (App.guard_fails st w) eqn:Hg.
  - by rewrite processImage_guarded.
  - destruct (processImage_summary cv br st w Hg)
      as (_ & _ & _ & _ & _ & [(? & ? & _ & _ & _ & -> & _)
                              |(? & ? & _ & _ & _ & _ & _ & Hl & _)]); auto.
Qed.
End Invariants.

(** ** Inputs at the edge *)

Section Edges.
Context (cv : OpenCV) (br : Browser).

(** X5: the file picker and the drop zone start a read of the first file
    only, whatever the number of files, and leave the state alone.  They
    differ when the list is empty: the drop handler returns, the [onChange]
    of the picker passes [undefined] to [readAsDataURL] and throws. *)
Theorem upload_reads_first_file_only st w files :
  let rp := App.fileInput_onChange files (st, w) in
  let rd := App.handleDrop files (st, w) in
  fst (snd rp) = st ∧ fst (snd rd) = st
  ∧ readers (snd (snd rp)) = readers w ++ take 1 (default [] files)
  ∧ readers (snd (snd rd)) = readers w ++ take 1 (default [] files)
  ∧ fst rd = Ok ()
  ∧ (fst rp = Throw "TypeError" ↔ files = Some [])
  ∧ (files ≠ Some [] -> rp = rd).
Proof.
  destruct files as [[|f fs]|]; cbn; rewrite ?app_nil_r; repeat split;
    try done; intros; congruence.
Qed.

(** X6: the radio group shows the selection and nothing else: in a
    reachable state exactly one radio input is checked once a technique is
    selected and none before, and after the change of the [i]-th input the
    checked input is the [i]-th. *)
Theorem radio_group_exclusive s :
  App.reachable cv br s ->
  length (List.filter (radio_checked (fst s)) App.radios)
    = (if truthy (App.selectedTechnique (fst s)) then 1 else 0)%nat
  ∧ ∀ i j v t,
      App.radios !! i = Some v -> App.radios !! j = Some t ->
      radio_checked (fst (App.step cv br (App.RadioChange i) s)) t = true
      ↔ i = j.
Proof.
  intros Hr. split.
  - pose proof (reachable_technique cv br s Hr) as Ht.
    unfold radio_checked. destruct Ht as [->|Ht]; [done|].
    unfold App.radios, App.TECHNIQUES.FILTERING.values,
      App.TECHNIQUES.SEGMENTATION.values in Ht. cbn [app] in Ht.
    repeat (apply elem_of_cons in Ht as [->|Ht]; [done|]).
    by apply elem_of_nil in Ht.
  - intros i j v t Hi Hj. destruct s as [st w]. rewrite step_state.
    pose proof (handler_state cv br (App.RadioChange i) st w) as Hs.
    cbn beta iota zeta in Hs. rewrite Hi in Hs. rewrite Hs.
    unfold radio_checked. cbn [App.selectedTechnique].
    rewrite String.eqb_eq. split.
    + intros ->. eapply NoDup_lookup; [|done..].
      apply (bool_decide_unpack _). by vm_compute.
    + intros ->. congruence.
Qed.

Lemma switch_on_None t : t ∉ App.radios -> App.switch_on t = None.
Proof.
  intros Ht. destruct (App.switch_on t) as [c|] eqn:Hc; [|done].
  apply switch_on_Some in Hc as <-. destruct Ht. apply case_label_radios.
Qed.

(** The [try] block when no clause matches. *)
Lemma processImage_try_unknown image st w shown :
  canvasRef w = Some shown ->
  App.switch_on (App.selectedTechnique st) = None ->
  ∃ r st2 w2,
    App.processImage_try cv br image (st, w) = (r, (st2, w2))
    ∧ trace w `prefix_of` trace w2
    ∧ match r with
      | Ok _ =>
          imshow_sem cv (mkMat 0 0 0 []) = Ok ()
          ∧ canvasRef w2 = Some (Some (mkMat 0 0 0 []))
          ∧ ∃ url, toDataURL_sem br (Some (mkMat 0 0 0 [])) = Ok url
                   ∧ App.processedImage st2 = Some url
      | Throw _ => st2 = st
      end.
Proof.
  intros Hc Hsw. unfold App.processImage_try.
  rewrite bind_run. cbn [get_state fst snd].
  rewrite bind_run, cv_imread_run.
  destruct (imread_sem cv image) as [m|e].
  2:{ eexists (Throw _), _, _. split; [reflexivity|]. cbn.
      split; [by apply prefix_app_r|done]. }
  rewrite bind_run, new_Mat_run. cbn [heap set_heap log].
  rewrite bind_run. unfold App.dispatch. rewrite Hsw.
  cbn [mret M_ret]. rewrite bind_run.
  set (img := fresh (dom (heap w))).
  set (dst := fresh (dom (<[img:=m]> (heap w)))).
  assert (Hdi : dst ≠ img).
  { intros E. pose proof (is_fresh (dom (<[img:=m]> (heap w)))) as Hf.
    fold dst in Hf. rewrite E, dom_insert_L in Hf. set_solver. }
  rewrite (cv_imshow_run cv dst (mkMat 0 0 0 []))
    by (cbn; apply lookup_insert_eq).
  destruct (imshow_sem cv (mkMat 0 0 0 [])) as [[]|e].
  2:{ eexists (Throw _), _, _. split; [reflexivity|]. cbn.
      split; [by do 3 apply prefix_app_r|done]. }
  rewrite bind_run, (canvas_toDataURL_run br (Some (mkMat 0 0 0 []))) by done.
  destruct (toDataURL_sem br (Some (mkMat 0 0 0 []))) as [url|e] eqn:Hurl.
  2:{ eexists (Throw _), _, _. split; [reflexivity|]. cbn.
      split; [by do 4 apply prefix_app_r|done]. }
  rewrite bind_run.
  unfold App.setProcessedImage at 1, emit, modify_world, modify_state.
  rewrite bind_run. cbn [fst snd mret M_ret].
  rewrite bind_run, Mat_delete_run
    by (cbn; rewrite lookup_insert_ne by done; rewrite lookup_insert_eq;
        by eexists).
  rewrite Mat_delete_run
    by (cbn; rewrite lookup_delete_ne by done; rewrite lookup_insert_eq;
        by eexists).
  eexists (Ok ()), _, _. split; [reflexivity|]. cbn.
  split; [by do 7 apply prefix_app_r|]. do 2 (split; [done|]). by exists url.
Qed.

(** The [try] block when no clause matches and the image loads, by what
    [cv.imshow] and [toDataURL] answer on the empty matrix. *)
Lemma processImage_try_unknown_trace image m st w shown :
  canvasRef w = Some shown ->
  App.switch_on (App.selectedTechnique st) = None ->
  imread_sem cv image = Ok m ->
  let img := fresh1 (heap w) in
  let dst := fresh2 (heap w) in
  ∃ r st2 w2,
    App.processImage_try cv br image (st, w) = (r, (st2, w2))
    ∧ match imshow_sem cv (mkMat 0 0 0 []) with
      | Throw e =>
          r = Throw e ∧ st2 = st
          ∧ trace w2 = trace w ++ [EImread image; ENewMat; EImshow dst]
      | Ok _ =>
          match toDataURL_sem br (Some (mkMat 0 0 0 [])) with
          | Throw e =>
              r = Throw e ∧ st2 = st
              ∧ trace w2 = trace w ++ [EImread image; ENewMat; EImshow dst;
                                       EToDataURL]
          | Ok url =>
              r = Ok ()
              ∧ st2 = App.mkApp (App.selectedImage st) (Some url)
                        (App.selectedTechnique st) (App.isProcessing st)
              ∧ trace w2 = trace w ++ [EImread image; ENewMat; EImshow dst;
                                       EToDataURL; ESetProcessedImage (Some url);
                                       EDelete img; EDelete dst]
              ∧ canvasRef w2 = Some (Some (mkMat 0 0 0 []))
          end
      end.
Proof.
  intros Hc Hsw Hm img dst. unfold App.processImage_try.
  rewrite bind_run. cbn [get_state fst snd].
  rewrite bind_run, cv_imread_run, Hm. fold (fresh1 (heap w)). fold img.
  rewrite bind_run, new_Mat_run. cbn [heap set_heap log].
  rewrite dom_insert_L. change (fresh ({[img]} ∪ dom (heap w))) with dst.
  rewrite bind_run. unfold App.dispatch. rewrite Hsw.
  cbn [mret M_ret]. rewrite bind_run.
  assert (Hdi : dst ≠ img) by apply fresh2_fresh.
  clearbody img dst.
  rewrite (cv_imshow_run cv dst (mkMat 0 0 0 []))
    by (cbn; apply lookup_insert_eq).
  destruct (imshow_sem cv (mkMat 0 0 0 [])) as [[]|e].
  2:{ eexists _, _, _. split; [reflexivity|]. cbn.
      do 2 (split; [done|]). trace_eq. }
  rewrite bind_run, (canvas_toDataURL_run br (Some (mkMat 0 0 0 []))) by done.
  destruct (toDataURL_sem br (Some (mkMat 0 0 0 []))) as [url|e].
  2:{ eexists _, _, _. split; [reflexivity|]. cbn.
      do 2 (split; [done|]). trace_eq. }
  rewrite bind_run.
  unfold App.setProcessedImage at 1, emit, modify_world, modify_state.
  rewrite bind_run. cbn [fst snd mret M_ret].
  rewrite bind_run, Mat_delete_run
    by (cbn; rewrite lookup_insert_ne by done; rewrite lookup_insert_eq;
        by eexists).
  rewrite Mat_delete_run
    by (cbn; rewrite lookup_delete_ne by done; rewrite lookup_insert_eq;
        by eexists).
  eexists _, _, _. split; [reflexivity|]. cbn.
  do 2 (split; [done|]). split; [trace_eq|done].
Qed.

(** X7: the switch has no [default]: with a non-empty technique that is
    none of the seven names, an invocation that passes the guard calls no
    function of the [cv] namespace; once the image is loaded, the next
    thing it does after [new cv.Mat()] is to hand that destination, still
    the empty matrix, to [cv.imshow].  If the library rejects the empty
    matrix the error is logged and the processed image is unchanged; if
    it shows it, the canvas holds the empty matrix and its data URL
    becomes the processed image. *)
Theorem unknown_technique_shows_empty st w :
  App.guard_fails st w = false ->
  App.selectedTechnique st ∉ App.radios ->
  let img := fresh1 (heap w) in
  let dst := fresh2 (heap w) in
  let evs := events (App.processImage cv br) (st, w) in
  let st' := fst (snd (App.processImage cv br (st, w))) in
  let w' := snd (snd (App.processImage cv br (st, w))) in
  cv_calls evs = []
  ∧ (errors evs = [] ->
     imshow_sem cv (mkMat 0 0 0 []) = Ok ()
     ∧ canvasRef w' = Some (Some (mkMat 0 0 0 []))
     ∧ ∃ url, toDataURL_sem br (Some (mkMat 0 0 0 [])) = Ok url
              ∧ App.processedImage st' = Some url)
  ∧ (imshow_sem cv (mkMat 0 0 0 []) ≠ Ok () ->
     errors evs ≠ [] ∧ App.processedImage st' = App.processedImage st)
  ∧ ∀ image m, imageRef w = Some image -> imread_sem cv image = Ok m ->
      [ESetIsProcessing true; EImread image; ENewMat; EImshow dst]
        `prefix_of` evs
      ∧ (∀ e, imshow_sem cv (mkMat 0 0 0 []) = Throw e ->
           evs = [ESetIsProcessing true; EImread image; ENewMat; EImshow dst;
                  EConsoleError "Error processing image:" e;
                  ESetIsProcessing false]
           ∧ App.processedImage st' = App.processedImage st)
      ∧ (∀ url, imshow_sem cv (mkMat 0 0 0 []) = Ok () ->
           toDataURL_sem br (Some (mkMat 0 0 0 [])) = Ok url ->
           evs = [ESetIsProcessing true; EImread image; ENewMat; EImshow dst;
                  EToDataURL; ESetProcessedImage (Some url);
                  EDelete img; EDelete dst; ESetIsProcessing false]
           ∧ canvasRef w' = Some (Some (mkMat 0 0 0 []))
           ∧ App.processedImage st' = Some url).
Proof.
  intros Hg Ht img dst evs st' w'.
  pose proof (switch_on_None _ Ht) as Hsw.
  destruct (processImage_summary cv br st w Hg)
    as (image & Him & _ & _ & _ & Hcases).
  fold evs in Hcases.
  assert (Hcalls : cv_calls evs = []).
  { destruct Hcases as [(? & ? & _ & _ & Hc & _)|(? & ? & _ & _ & Hc & _)];
      rewrite cv_calls_dispatch_events, Hsw in Hc; [done|].
    by apply prefix_nil_inv in Hc. }
  split; [done|]. clear Hcases Hcalls.
  destruct (guard_passes _ _ Hg) as (_ & _ & _ & shown & Hc).
  subst evs st' w'. unfold events. cbn [fst snd].
  remember (App.processImage cv br (st, w)) as R eqn:HR. revert HR.
  unfold App.processImage. rewrite bind_run. cbn [get_state fst snd].
  rewrite bind_run. cbn [get_world fst snd]. rewrite Him, Hg.
  rewrite bind_run.
  unfold App.setIsProcessing at 1, emit, modify_world, modify_state.
  rewrite bind_run. cbn [fst snd mret M_ret].
  unfold try_catch_finally.
  set (st1 := App.mkApp _ _ _ true).
  set (w1 := log _ w).
  pose proof (processImage_try_unknown_trace image) as Hexact.
  destruct (processImage_try_unknown image st1 w1 shown Hc Hsw)
    as (r & st2 & w2 & Hrun & [k Hk] & Hpost).
  specialize (λ m Hm, Hexact m st1 w1 shown Hc Hsw Hm).
  cbv zeta in Hexact. rewrite Hrun in Hexact |- *.
  change (heap w1) with (heap w) in Hexact. fold img dst in Hexact.
  assert (Ht1 : trace w1 = trace w ++ [ESetIsProcessing true]) by done.
  clearbody img dst w1.
  assert (Hnew : ∀ m, imread_sem cv image = Ok m ->
    match imshow_sem cv (mkMat 0 0 0 []) with
    | Throw e =>
        r = Throw e ∧ st2 = st1
        ∧ trace w2 = trace w1 ++ [EImread image; ENewMat; EImshow dst]
    | Ok _ =>
        match toDataURL_sem br (Some (mkMat 0 0 0 [])) with
        | Throw e =>
            r = Throw e ∧ st2 = st1
            ∧ trace w2 = trace w1 ++ [EImread image; ENewMat; EImshow dst;
                                      EToDataURL]
        | Ok url =>
            r = Ok ()
            ∧ st2 = App.mkApp (App.selectedImage st1) (Some url)
                      (App.selectedTechnique st1) (App.isProcessing st1)
            ∧ trace w2 = trace w1 ++ [EImread image; ENewMat; EImshow dst;
                                      EToDataURL; ESetProcessedImage (Some url);
                                      EDelete img; EDelete dst]
            ∧ canvasRef w2 = Some (Some (mkMat 0 0 0 []))
        end
    end).
  { intros m Hm. destruct (Hexact m Hm) as (r' & st' & w' & E & H).
    by injection E as <- <- <-. }
  clear Hexact.
  unfold App.setIsProcessing, console_error, emit, modify_world,
    modify_state, mbind, M_bind, mret, M_ret.
  destruct r as [[]|e]; cbn [fst snd]; intros ->; cbn [fst snd log trace canvasRef].
  - destruct Hpost as (Hshow & Hcv & url & Hurl & Hp).
    split; [intros _; split; [done|]; split; [exact Hcv|]; by exists url|].
    split; [intros H; by destruct H|].
    intros image' m Him' Hm. assert (image' = image) as -> by congruence.
    specialize (Hnew m Hm). rewrite Hshow, Hurl in Hnew.
    destruct Hnew as (_ & -> & Htr & _).
    assert (Hevs : events_since w (log (ESetIsProcessing false) w2)
              = [ESetIsProcessing true; EImread image; ENewMat; EImshow dst;
                 EToDataURL; ESetProcessedImage (Some url);
                 EDelete img; EDelete dst; ESetIsProcessing false]).
    { apply events_since_app. cbn [trace log]. rewrite Htr, Ht1. trace_eq. }
    rewrite Hevs. split; [by eexists|]. split; [congruence|].
    intros url' _ Hurl'. assert (url' = url) as -> by congruence. done.
  - subst st2.
    assert (He : errors (events_since w
               (log (ESetIsProcessing false)
                  (log (EConsoleError "Error processing image:" e) w2))) ≠ []).
    { unfold events_since. cbn [trace log]. rewrite Hk, Ht1.
      rewrite <- !app_assoc. rewrite drop_app_length.
      unfold errors. rewrite !omap_app. cbn.
      intros He. apply app_eq_nil in He as [_ He].
      done. }
    split; [done|]. split; [by intros _|].
    intros image' m Him' Hm. assert (image' = image) as -> by congruence.
    specialize (Hnew m Hm).
    destruct (imshow_sem cv (mkMat 0 0 0 [])) as [[]|e1].
    + destruct (toDataURL_sem br (Some (mkMat 0 0 0 []))) as [url|e2];
        [by destruct Hnew|].
      destruct Hnew as ([= <-] & _ & Htr).
      assert (Hevs : events_since w
                (log (ESetIsProcessing false)
                   (log (EConsoleError "Error processing image:" e) w2))
                = [ESetIsProcessing true; EImread image; ENewMat; EImshow dst;
                   EToDataURL; EConsoleError "Error processing image:" e;
                   ESetIsProcessing false]).
      { apply events_since_app. cbn [trace log]. rewrite Htr, Ht1. trace_eq. }
      rewrite Hevs. split; [by eexists|]. split; [done|]. by intros.
    + destruct Hnew as ([= <-] & _ & Htr).
      assert (Hevs : events_since w
                (log (ESetIsProcessing false)
                   (log (EConsoleError "Error processing image:" e) w2))
                = [ESetIsProcessing true; EImread image; ENewMat; EImshow dst;
                   EConsoleError "Error processing image:" e;
                   ESetIsProcessing false]).
      { apply events_since_app. cbn [trace log]. rewrite Htr, Ht1. trace_eq. }
      rewrite Hevs. split; [by eexists|].
      split; [|done]. intros e' [= <-]. done.
Qed.
End Edges.

(** ** Where the result on display comes from *)

Section Origin.
Context (cv : OpenCV) (br : Browser).

Lemma origin_from_app acc l1 l2 :
  origin_from acc (l1 ++ l2) = origin_from (origin_from acc l1) l2.
Proof. apply fold_left_app. Qed.

(** Events that are neither a read of the image element nor an update of
    [processedImage] leave the reading as it is. *)
Lemma origin_from_inert acc evs :
  Forall (λ e, ∀ a, origin_step a e = a) evs -> origin_from acc evs = acc.
Proof.
  intros H. revert acc. induction H as [|e evs He _ IH]; intros acc; [done|].
  cbn. rewrite He. apply IH.
Qed.

(** Events that are no update of [processedImage] leave the recorded
    result as it is. *)
Lemma origin_from_quiet acc evs :
  Forall (λ e, ∀ a, snd (origin_step a e) = snd a) evs ->
  snd (origin_from acc evs) = snd acc.
Proof.
  intros H. revert acc. induction H as [|e evs He _ IH]; intros acc; [done|].
  cbn. fold (origin_from (origin_step acc e) evs). by rewrite IH, He.
Qed.

Lemma dispatch_events_inert t img dst ker :
  Forall (λ e, ∀ a, origin_step a e = a) (App.dispatch_events cv t img dst ker).
Proof.
  unfold App.dispatch_events. destruct (App.switch_on t) as [c|]; [|done].
  destruct c; by repeat constructor.
Qed.

Lemma origin_step_inert_quiet e :
  (∀ a, origin_step a e = a) -> ∀ a, snd (origin_step a e) = snd a.
Proof. intros H a. by rewrite H. Qed.

(** What is recorded agrees with the state: [processedImage] is the data
    URL of the last result stored, and that result was computed from the
    image element of the current upload. *)
Lemma reachable_origin s :
  App.reachable cv br s ->
  App.processedImage (fst s) = snd <$> origin (trace (snd s))
  ∧ ∀ image url, origin (trace (snd s)) = Some (image, url) ->
                 App.selectedImage (fst s) = Some image.
Proof.
  induction 1 as [|a [st w] Hr IH]; [done|]. cbn [fst snd] in IH.
  destruct (step_world cv br a (st, w)) as (_ & -> & _). rewrite step_state.
  assert (a = App.ClickProcess ∨ a ≠ App.ClickProcess) as [->|Ha]
    by (destruct a; (by left) || (by right)).
  - destruct (click_process_cases cv br st w) as [->|(_ & Hg & ->)]; [done|].
    destruct (guard_passes _ _ Hg) as (_ & _ & [image Him] & _).
    destruct (processImage_run cv br st w image Hg Him)
      as (st' & w' & evs & -> & Ht & _ & _ & Hcases).
    cbn [fst snd]. rewrite Ht. unfold origin in *.
    rewrite !origin_from_app.
    set (acc := origin_from (None, None) (trace w)) in *.
    assert (Hsel : App.selectedImage st = Some image).
    { pose proof (reachable_imageRef cv br _ Hr) as Hi. cbn [fst snd] in Hi.
      rewrite Him in Hi. by destruct (truthy_opt (App.selectedImage st)). }
    destruct Hcases as [(url & mat & -> & _ & _ & _ & ->)
                       |(pre & e & -> & Hpre & -> & _)].
    + rewrite !origin_from_app.
      rewrite (origin_from_inert _ _ (dispatch_events_inert _ _ _ _)).
      cbn. split; [done|]. by intros ? ? [= <- _].
    + rewrite origin_from_app. cbn.
      assert (Hq : snd (origin_from acc pre) = snd acc).
      { apply origin_from_quiet. destruct Hpre as [k Hk].
        assert (HF : Forall (λ e, ∀ a, snd (origin_step a e) = snd a)
                       (pre ++ k)).
        { rewrite <- Hk. repeat apply Forall_app_2; try by repeat constructor.
          eapply Forall_impl; [apply dispatch_events_inert|].
          apply origin_step_inert_quiet. }
        by apply Forall_app in HF as [? _]. }
      rewrite Hq. done.
  - destruct (handler_other_run cv br a st w Ha) as (evs & -> & _ & _ & ->).
    pose proof (handler_state cv br a st w) as Hs.
    unfold origin in *. rewrite origin_from_app.
    set (acc := origin_from (None, None) (trace w)) in *.
    destruct a as [files|files|i|i| |]; cbn beta iota zeta in Hs; try done.
    + rewrite Hs. by destruct files as [[|f fs]|].
    + rewrite Hs. by destruct files as [[|f fs]|].
    + destruct (readers w !! i) as [f|]; by rewrite Hs.
    + destruct (App.radios !! i) as [v|]; by rewrite Hs.
    + rewrite Hs. by destruct (App.download_disabled st).
Qed.

(** X8: whenever a processed image is on display, it is the data URL that
    the last completed run stored, that run read the image element of the
    image now selected, and no upload has completed since. *)
Theorem result_is_of_current_image s url :
  App.reachable cv br s ->
  App.processedImage (fst s) = Some url ->
  ∃ image, origin (trace (snd s)) = Some (image, url)
           ∧ App.selectedImage (fst s) = Some image.
Proof.
  intros Hr Hp. destruct (reachable_origin s Hr) as [Ho Hsel].
  rewrite Hp in Ho.
  destruct (origin (trace (snd s))) as [[image url']|] eqn:E; [|done].
  injection Ho as ->. exists image. split; [done|]. by eapply Hsel.
Qed.
End Origin.

(** ** The highlight of the drop zone *)

(** X9: from the class list the drop zone is rendered with, after any
    sequence of drag events the list is the rendered one, followed by the
    highlight class exactly when the last event was a [dragover]: repeated
    [dragover]s add the class once, and [dragleave] and [drop] always
    restore the rendered list. *)
Theorem drag_highlight_follows_last_event (evs : list (DragType * DragEvent)) :
  DropZone.listeners evs DropZone.className =
    match last evs with
    | Some (on_dragover, _) => DropZone.className ++ ["border-blue-500"]
    | _ => DropZone.className
    end.
Proof.
  induction evs as [|[t e] evs IH] using rev_ind; [done|].
  unfold DropZone.listeners in *. rewrite fold_left_app, last_snoc, IH.
  clear IH. cbn [fold_left fst snd].
  destruct (last evs) as [[[] ?]|]; destruct t; by vm_compute.
Qed.

(** X10: the same in the dark-mode component, in either theme, for the
    listeners registered under that theme and the class list rendered in
    it. *)
Theorem dark_drag_highlight_follows_last_event (isDarkMode : bool)
    (evs : list (DragType * DragEvent)) :
  DropZoneDark.listeners isDarkMode evs (DropZoneDark.className isDarkMode) =
    match last evs with
    | Some (on_dragover, _) =>
        DropZoneDark.className isDarkMode
        ++ [if isDarkMode then "border-blue-400" else "border-blue-500"]
    | _ => DropZoneDark.className isDarkMode
    end.
Proof.
  induction evs as [|[t e] evs IH] using rev_ind; [done|].
  unfold DropZoneDark.listeners in *. rewrite fold_left_app, last_snoc, IH.
  clear IH. cbn [fold_left fst snd].
  destruct (last evs) as [[[] ?]|]; destruct t, isDarkMode; by vm_compute.
Qed.

(** ** The theme *)

Section Theme.
Context (cv : OpenCV) (br : Browser).

Lemma dark_step_state a s :
  fst (AppDark.step cv br a s) = fst (snd (AppDark.handler cv br a s)).
Proof.
  unfold AppDark.step, AppDark.commit.
  by destruct (AppDark.handler cv br a s) as [r [st w]].
Qed.

Lemma dark_step_theme a s :
  AppDark.isDarkMode (fst (AppDark.step cv br a s))
    = xorb (is_toggle a) (AppDark.isDarkMode (fst s)).
Proof.
  rewrite dark_step_state.
  destruct (erase_action a) as [a'|] eqn:Ha.
  - destruct (sim_handler cv br a a' Ha s) as [_ ->]. by destruct a.
  - by destruct a.
Qed.

(** X11: the theme starts dark and only the toggle changes it: after any
    sequence of actions it is dark exactly when the toggle was clicked an
    even number of times. *)
Theorem theme_counts_toggles acts :
  AppDark.isDarkMode (fst (AppDark.run cv br acts AppDark.mounted))
    = Nat.even (length (List.filter is_toggle acts)).
Proof.
  induction acts as [|a acts IH] using rev_ind; [done|].
  unfold AppDark.run in *. rewrite fold_left_app. cbn [fold_left].
  rewrite dark_step_theme, IH, List.filter_app, length_app. cbn.
  destruct (is_toggle a); cbn.
  - rewrite Nat.add_1_r, Nat.even_succ, <- Nat.negb_even.
    by destruct (Nat.even _).
  - by rewrite Nat.add_0_r.
Qed.
End Theme.

(** ** The trace is only written *)

Section Blind.
Context (cv : OpenCV) (br : Browser) {St : Type}.

Lemma blind_mret {A} (a : A) : blind (St:=St) (mret a).
Proof.
  intros st w. exists (Ok a), st, w, []. split; [done|].
  intros tr. by rewrite app_nil_r.
Qed.

Lemma blind_throw {A} e : blind (St:=St) (A:=A) (throw e).
Proof.
  intros st w. exists (Throw e), st, w, []. split; [done|].
  intros tr. by rewrite app_nil_r.
Qed.

Lemma blind_emit e : is_theme e = false -> blind (St:=St) (emit e).
Proof.
  intros He st w. exists (Ok ()), st, w, [e]. split; [by constructor|done].
Qed.

Lemma blind_modify_state (f : St -> St) : blind (modify_state f).
Proof.
  intros st w. exists (Ok ()), (f st), w, []. split; [done|].
  intros tr. by rewrite app_nil_r.
Qed.

Lemma blind_bind {A B} (m : M St A) (f : A -> M St B) :
  blind m -> (∀ a, blind (f a)) -> blind (m ≫= f).
Proof.
  intros Hm Hf st w.
  destruct (Hm st w) as ([a|e] & st1 & w1 & evs1 & HF1 & H1).
  - destruct (Hf a st1 w1) as (r2 & st2 & w2 & evs2 & HF2 & H2).
    exists r2, st2, w2, (evs1 ++ evs2). split; [by apply Forall_app_2|].
    intros tr. rewrite bind_run, H1.
    change (set_trace (tr ++ evs1) w1) with (set_trace (tr ++ evs1) (set_trace [] w1)).
    rewrite app_assoc. rewrite <- (H2 (tr ++ evs1)). done.
  - exists (Throw e), st1, w1, evs1. split; [done|].
    intros tr. by rewrite bind_run, H1.
Qed.

Lemma blind_cv_imread el : blind (St:=St) (cv_imread cv el).
Proof.
  intros st w. destruct (imread_sem cv el) as [m|e] eqn:E.
  - exists (Ok (fresh (dom (heap w)))), st,
      (set_heap (<[fresh (dom (heap w)):=m]> (heap w)) w), [EImread el].
    split; [by constructor|]. intros tr. rewrite cv_imread_run, E. done.
  - exists (Throw e), st, w, [EImread el].
    split; [by constructor|]. intros tr. rewrite cv_imread_run, E. done.
Qed.

Lemma blind_new_Mat : blind (St:=St) new_Mat.
Proof.
  intros st w.
  exists (Ok (fresh (dom (heap w)))), st,
    (set_heap (<[fresh (dom (heap w)):=mkMat 0 0 0 []]> (heap w)) w), [ENewMat].
  split; [by constructor|done].
Qed.

Lemma blind_cv_call c : blind (St:=St) (cv_call cv c).
Proof.
  intros st w.
  destruct (forallb (live (heap w)) (operands c)) eqn:El.
  2:{ exists (Throw "BindingError"), st, w, [ECv c].
      split; [by constructor|]. intros tr.
      unfold cv_call, emit, modify_world, get_world, throw, mbind, M_bind; cbn.
      by rewrite El. }
  destruct (call_sem cv c (heap w)) as [m|e] eqn:E.
  2:{ exists (Throw e), st, w, [ECv c].
      split; [by constructor|]. intros tr.
      unfold cv_call, emit, modify_world, get_world, lift_res, mbind, M_bind;
        cbn. by rewrite El, E. }
  destruct (destination c) as [d|] eqn:Ed.
  - exists (Ok None), st, (set_heap (<[d:=m]> (heap w)) w), [ECv c].
    split; [by constructor|]. intros tr.
    unfold cv_call, emit, modify_world, get_world, lift_res, mbind, M_bind,
      mret, M_ret; cbn. by rewrite El, E, Ed.
  - exists (Ok (Some (fresh (dom (heap w))))), st,
      (set_heap (<[fresh (dom (heap w)):=m]> (heap w)) w), [ECv c].
    split; [by constructor|]. intros tr.
    unfold cv_call, alloc, emit, modify_world, get_world, lift_res, mbind,
      M_bind, mret, M_ret; cbn. by rewrite El, E, Ed.
Qed.

Lemma blind_cv_do c : blind (St:=St) (cv_do cv c).
Proof. apply blind_bind; [apply blind_cv_call|intros; apply blind_mret]. Qed.

Lemma blind_cv_getStructuringElement shape ksize :
  blind (St:=St) (cv_getStructuringElement cv shape ksize).
Proof.
  apply blind_bind; [apply blind_cv_call|].
  intros [h|]; [apply blind_mret|apply blind_throw].
Qed.

Lemma blind_Mat_delete h : blind (St:=St) (Mat_delete h).
Proof.
  intros st w. destruct (live (heap w) h) eqn:El.
  - exists (Ok ()), st, (set_heap (delete h (heap w)) w), [EDelete h].
    split; [by constructor|]. intros tr.
    unfold Mat_delete, emit, modify_world, get_world, mbind, M_bind; cbn.
    by rewrite El.
  - exists (Throw "BindingError"), st, w, [EDelete h].
    split; [by constructor|]. intros tr.
    unfold Mat_delete, emit, modify_world, get_world, throw, mbind, M_bind;
      cbn. by rewrite El.
Qed.

Lemma blind_cv_imshow h : blind (St:=St) (cv_imshow cv h).
Proof.
  intros st w. destruct (heap w !! h) as [mat|] eqn:Eh.
  2:{ exists (Throw "BindingError"), st, w, [EImshow h].
      split; [by constructor|]. intros tr.
      unfold cv_imshow, emit, modify_world, get_world, throw, mbind, M_bind;
        cbn. by rewrite Eh. }
  destruct (imshow_sem cv mat) as [[]|e] eqn:E.
  - exists (Ok ()), st, (set_canvasRef (Some (Some mat)) w), [EImshow h].
    split; [by constructor|]. intros tr.
    unfold cv_imshow, emit, modify_world, get_world, lift_res, mbind, M_bind;
      cbn. by rewrite Eh, E.
  - exists (Throw e), st, w, [EImshow h].
    split; [by constructor|]. intros tr.
    unfold cv_imshow, emit, modify_world, get_world, lift_res, mbind, M_bind;
      cbn. by rewrite Eh, E.
Qed.

Lemma blind_canvas_toDataURL : blind (St:=St) (canvas_toDataURL br).
Proof.
  intros st w. destruct (canvasRef w) as [shown|] eqn:Ec.
  2:{ exists (Throw "TypeError"), st, w, [EToDataURL].
      split; [by constructor|]. intros tr.
      unfold canvas_toDataURL, emit, modify_world, get_world, throw, mbind,
        M_bind; cbn. by rewrite Ec. }
  exists (toDataURL_sem br shown), st, w, [EToDataURL].
  split; [by constructor|]. intros tr.
  unfold canvas_toDataURL, emit, modify_world, get_world, lift_res, mbind,
    M_bind; cbn. rewrite Ec. by destruct (toDataURL_sem br shown).
Qed.

Lemma blind_console_error msg e : blind (St:=St) (console_error msg e).
Proof. by apply blind_emit. Qed.

Lemma blind_try_catch_finally (body : M St unit) handler fin :
  blind body -> (∀ e, blind (handler e)) -> blind fin ->
  blind (try_catch_finally body handler fin).
Proof.
  intros Hb Hh Hf st w.
  destruct (Hb st w) as (r1 & st1 & w1 & evs1 & HF1 & H1).
  assert (∃ r2 st2 w2 evs2, Forall (λ e, is_theme e = false) evs2
    ∧ ∀ tr, match r1 with
            | Ok a => (Ok a, (st1, set_trace (tr ++ evs1) w1))
            | Throw e => handler e (st1, set_trace (tr ++ evs1) w1)
            end = (r2, (st2, set_trace (tr ++ evs2) w2)))
    as (r2 & st2 & w2 & evs2 & HF2 & H2).
  { destruct r1 as [[]|e]; [by exists (Ok ()), st1, w1, evs1|].
    destruct (Hh e st1 w1) as (r2 & st2 & w2 & evs2 & HF2 & H2).
    exists r2, st2, w2, (evs1 ++ evs2). split; [by apply Forall_app_2|].
    intros tr. by rewrite app_assoc, <- H2. }
  destruct (Hf st2 w2) as (r3 & st3 & w3 & evs3 & HF3 & H3).
  exists (match r3 with Ok _ => r2 | Throw e => Throw e end), st3, w3,
    (evs2 ++ evs3).
  split; [by apply Forall_app_2|]. intros tr.
  unfold try_catch_finally. rewrite H1, H2, H3, app_assoc. by destruct r3.
Qed.
End Blind.

Section BlindApp.
Context (cv : OpenCV) (br : Browser).

Lemma blind_setProcessedImage v : blind (App.setProcessedImage v).
Proof.
  apply blind_bind; [by apply blind_emit|intros; apply blind_modify_state].
Qed.
Lemma blind_setSelectedImage v : blind (App.setSelectedImage v).
Proof.
  apply blind_bind; [by apply blind_emit|intros; apply blind_modify_state].
Qed.
Lemma blind_setSelectedTechnique v : blind (App.setSelectedTechnique v).
Proof.
  apply blind_bind; [by apply blind_emit|intros; apply blind_modify_state].
Qed.
Lemma blind_setIsProcessing v : blind (App.setIsProcessing v).
Proof.
  apply blind_bind; [by apply blind_emit|intros; apply blind_modify_state].
Qed.

Lemma blind_case_body c img dst : blind (App.case_body cv c img dst).
Proof.
  destruct c; cbn [App.case_body];
    repeat first
      [ apply blind_cv_do | apply blind_Mat_delete
      | apply blind_bind;
        [ first [apply blind_cv_do | apply blind_cv_getStructuringElement]
        | intros ? ] ].
Qed.

Lemma blind_dispatch t img dst : blind (App.dispatch cv t img dst).
Proof.
  unfold App.dispatch. destruct (App.switch_on t);
    [apply blind_case_body|apply blind_mret].
Qed.

(** A computation that starts by reading the state. *)
Lemma blind_get_state {A} (f : App.AppState -> M App.AppState A) :
  (∀ st, blind (f st)) -> blind (get_state ≫= f).
Proof.
  intros Hf st w. destruct (Hf st st w) as (r & st' & w' & evs & HF & H).
  exists r, st', w', evs. split; [done|]. intros tr.
  rewrite bind_run. cbn [get_state fst snd]. apply H.
Qed.

Lemma blind_processImage_try image : blind (App.processImage_try cv br image).
Proof.
  unfold App.processImage_try. apply blind_get_state. intros st.
  apply blind_bind; [apply blind_cv_imread|]. intros img.
  apply blind_bind; [apply blind_new_Mat|]. intros dst.
  apply blind_bind; [apply blind_dispatch|]. intros _.
  apply blind_bind; [apply blind_cv_imshow|]. intros _.
  apply blind_bind; [apply blind_canvas_toDataURL|]. intros url.
  apply blind_bind; [apply blind_setProcessedImage|]. intros _.
  apply blind_bind; [apply blind_Mat_delete|]. intros _.
  apply blind_Mat_delete.
Qed.

Lemma blind_processImage : blind (App.processImage cv br).
Proof.
  intros st w.
  assert (Hb : blind (match imageRef w with
                      | Some image =>
                          if App.guard_fails st w then mret ()
                          else App.setIsProcessing true;;
                               try_catch_finally
                                 (App.processImage_try cv br image)
                                 (λ error, console_error "Error processing image:" error)
                                 (App.setIsProcessing false)
                      | None => mret ()
                      end)).
  { destruct (imageRef w); [|apply blind_mret].
    destruct (App.guard_fails st w); [apply blind_mret|].
    apply blind_bind; [apply blind_setIsProcessing|]. intros _.
    apply blind_try_catch_finally;
      [apply blind_processImage_try|intros; apply blind_console_error
      |apply blind_setIsProcessing]. }
  destruct (Hb st w) as (r & st' & w' & evs & HF & H).
  exists r, st', w', evs. split; [done|]. intros tr. rewrite <- H. done.
Qed.

Lemma blind_downloadImage : blind App.downloadImage.
Proof.
  unfold App.downloadImage. apply blind_get_state. intros st.
  destruct (truthy_opt (App.processedImage st)); [|apply blind_mret].
  repeat (apply blind_bind; [by apply blind_emit|intros _]).
  by apply blind_emit.
Qed.

Lemma blind_handler a : blind (App.handler cv br a).
Proof.
  destruct a as [files|files|i|i| |]; cbn [App.handler].
  - destruct files as [[|f fs]|]; cbn;
      [apply blind_throw| |apply blind_mret].
    intros st w. exists (Ok ()), st, (set_readers (readers w ++ [f]) w),
      [EReadAsDataURL f]. split; [by constructor|done].
  - destruct files as [[|f fs]|]; cbn; try apply blind_mret.
    intros st w. exists (Ok ()), st, (set_readers (readers w ++ [f]) w),
      [EReadAsDataURL f]. split; [by constructor|done].
  - intros st w.
    assert (Hb : blind (match readers w !! i with
                        | Some f =>
                            modify_world (set_readers (delete i (readers w)));;
                            App.reader_onload (readAsDataURL_sem br f)
                        | None => mret () : M App.AppState unit
                        end)).
    { destruct (readers w !! i); [|apply blind_mret].
      apply blind_bind.
      - intros st0 w0. exists (Ok ()), st0,
          (set_readers (delete i (readers w)) w0), [].
        split; [done|]. intros tr. by rewrite app_nil_r.
      - intros _. apply blind_bind;
          [apply blind_setSelectedImage|intros; apply blind_setProcessedImage]. }
    destruct (Hb st w) as (r & st' & w' & evs & HF & H).
    exists r, st', w', evs. split; [done|]. intros tr. rewrite <- H. done.
  - unfold App.radio_onChange. destruct (App.radios !! i);
      [apply blind_setSelectedTechnique|apply blind_mret].
  - apply blind_get_state. intros st.
    destruct (App.process_disabled st);
      [apply blind_mret|apply blind_processImage].
  - apply blind_get_state. intros st.
    destruct (App.download_disabled st);
      [apply blind_mret|apply blind_downloadImage].
Qed.
End BlindApp.

(** ** The dark-mode component refines the light one *)

Section Refinement.
Context (cv : OpenCV) (br : Browser).

Lemma set_trace_id w : set_trace (trace w) w = w.
Proof. by destruct w. Qed.

Lemma without_theme_id evs :
  Forall (λ e, is_theme e = false) evs -> without_theme evs = evs.
Proof.
  induction 1 as [|e evs He _ IH]; [done|].
  unfold without_theme in *. cbn. by rewrite He, IH.
Qed.

Lemma blind_step a st w :
  ∃ st' w' evs,
    Forall (λ e, is_theme e = false) evs
    ∧ ∀ tr, App.step cv br a (st, set_trace tr w)
            = (st', set_trace (tr ++ evs) w').
Proof.
  destruct (blind_handler cv br a st w) as (r & st1 & w1 & evs & HF & H).
  exists st1, (snd (App.commit (st1, w1))), evs. split; [done|].
  intros tr. unfold App.step. by rewrite H.
Qed.

(** A step of the dark-mode component that is not the toggle is the same
    step of the light one, on the state without the theme and the world
    without the events of the theme. *)
Lemma refine_step a a' st w :
  erase_action a = Some a' ->
  App.step cv br a' (erase st, set_trace (without_theme (trace w)) w)
    = (erase (fst (AppDark.step cv br a (st, w))),
       set_trace (without_theme (trace (snd (AppDark.step cv br a (st, w)))))
         (snd (AppDark.step cv br a (st, w)))).
Proof.
  intros Ha. pose proof (sim_step cv br a a' (st, w) Ha) as Hsim.
  cbn [fst snd] in Hsim.
  destruct (blind_step a' (erase st) w) as (st' & w' & evs & HF & H).
  pose proof (H (trace w)) as H1. rewrite set_trace_id, Hsim in H1.
  injection H1 as -> Hw. rewrite H, Hw.
  unfold without_theme. cbn [trace set_trace].
  rewrite List.filter_app. fold (without_theme evs).
  by rewrite (without_theme_id _ HF).
Qed.

Lemma dark_step_rendered a s : rendered (AppDark.step cv br a s).
Proof.
  unfold AppDark.step, AppDark.commit, rendered.
  by destruct (AppDark.handler cv br a s) as [r [st w]].
Qed.

Lemma refine_toggle st w :
  rendered (st, w) ->
  (erase (fst (AppDark.step cv br AppDark.ToggleDarkMode (st, w))),
   set_trace (without_theme
                (trace (snd (AppDark.step cv br AppDark.ToggleDarkMode (st, w)))))
     (snd (AppDark.step cv br AppDark.ToggleDarkMode (st, w))))
  = (erase st, set_trace (without_theme (trace w)) w).
Proof.
  intros [Hc Hi]. cbn [fst snd] in Hc, Hi.
  unfold AppDark.step, AppDark.commit, AppDark.handler, AppDark.setIsDarkMode,
    emit, modify_world, modify_state, get_state, mbind, M_bind, mret, M_ret.
  cbn. unfold without_theme. rewrite List.filter_app. cbn.
  rewrite app_nil_r. unfold set_trace. cbn. by rewrite <- Hc, <- Hi.
Qed.

Lemma refine_run acts s :
  rendered s ->
  App.run cv br (omap erase_action acts)
    (erase (fst s), set_trace (without_theme (trace (snd s))) (snd s))
  = (erase (fst (AppDark.run cv br acts s)),
     set_trace (without_theme (trace (snd (AppDark.run cv br acts s))))
       (snd (AppDark.run cv br acts s))).
Proof.
  revert s. induction acts as [|a acts IH]; intros [st w] Hs; [done|].
  cbn [AppDark.run fold_left omap list_omap].
  fold (AppDark.run cv br acts (AppDark.step cv br a (st, w))).
  destruct (erase_action a) as [a'|] eqn:Ha.
  - cbn [App.run fold_left fst snd].
    rewrite (refine_step a a' st w Ha).
    fold (App.run cv br (omap erase_action acts)).
    apply (IH (AppDark.step cv br a (st, w))), dark_step_rendered.
  - destruct a; try done. cbn [fst snd]. rewrite <- (refine_toggle st w Hs).
    apply (IH (AppDark.step cv br AppDark.ToggleDarkMode (st, w))),
      dark_step_rendered.
Qed.

(** X12: for every sequence of user and browser events, the dark-mode
    component ends in the state, heap, canvas, mounted elements and
    pending reads in which the light component ends on the same events
    without the toggles, and it has left the same trace apart from the
    updates of the theme. *)
Theorem dark_refines_light acts :
  let sd := AppDark.run cv br acts AppDark.mounted in
  let sa := App.run cv br (omap erase_action acts) App.mounted in
  fst sa = erase (fst sd)
  ∧ heap (snd sa) = heap (snd sd)
  ∧ canvasRef (snd sa) = canvasRef (snd sd)
  ∧ imageRef (snd sa) = imageRef (snd sd)
  ∧ readers (snd sa) = readers (snd sd)
  ∧ trace (snd sa) = without_theme (trace (snd sd)).
Proof.
  intros sd sa.
  assert (H : sa = (erase (fst sd),
                    set_trace (without_theme (trace (snd sd))) (snd sd))).
  { subst sa sd. rewrite <- refine_run; done. }
  by rewrite H.
Qed.
End Refinement.

Section DarkInvariants.
Context (cv : OpenCV) (br : Browser).

Lemma run_reachable acts :
  App.reachable cv br (App.run cv br acts App.mounted).
Proof.
  induction acts as [|a acts IH] using rev_ind; [constructor|].
  unfold App.run in *. rewrite fold_left_app. by constructor.
Qed.

Lemma errors_without_theme tr : errors (without_theme tr) = errors tr.
Proof.
  induction tr as [|e tr IH]; [done|].
  unfold without_theme, errors in *. cbn. by destruct e; cbn; rewrite IH.
Qed.

Lemma origin_from_without_theme acc tr :
  origin_from acc (without_theme tr) = origin_from acc tr.
Proof.
  revert acc. induction tr as [|e tr IH]; intros acc; [done|].
  destruct e as [| | | | | | | |[]| | | | | | | |]; apply IH.
Qed.

(** X13: what holds of the light component between two events holds of the
    dark-mode one: no run is in progress, the technique is the empty
    string or one of the seven names, no matrix is live unless an error was
    logged, and a result on display was computed from the image now
    selected. *)
Theorem dark_invariants acts :
  let sd := AppDark.run cv br acts AppDark.mounted in
  AppDark.isProcessing (fst sd) = false
  ∧ (AppDark.selectedTechnique (fst sd) = ""
     ∨ AppDark.selectedTechnique (fst sd) ∈ AppDark.radios)
  ∧ (errors (trace (snd sd)) = [] -> heap (snd sd) = ∅)
  ∧ (∀ url, AppDark.processedImage (fst sd) = Some url ->
       ∃ image, origin (trace (snd sd)) = Some (image, url)
                ∧ AppDark.selectedImage (fst sd) = Some image).
Proof.
  intros sd.
  pose proof (run_reachable (omap erase_action acts)) as Hr.
  assert (Hm : rendered AppDark.mounted) by done.
  pose proof (refine_run cv br acts AppDark.mounted Hm) as Hsa.
  change (App.run cv br (omap erase_action acts) App.mounted
          = (erase (fst sd), set_trace (without_theme (trace (snd sd))) (snd sd)))
    in Hsa.
  rewrite Hsa in Hr. clear Hsa Hm.
  split; [|split; [|split]].
  - apply (reachable_idle cv br _ Hr).
  - apply (reachable_technique cv br _ Hr).
  - intros He. apply (reachable_heap_empty cv br _ Hr).
    cbn. by rewrite errors_without_theme.
  - intros url Hp.
    destruct (reachable_origin cv br _ Hr) as [Ho Hsel].
    cbn [fst snd erase App.processedImage App.selectedImage trace set_trace]
      in Ho, Hsel.
    unfold origin in *. rewrite origin_from_without_theme in Ho, Hsel.
    rewrite Hp in Ho.
    destruct (snd (origin_from (None, None) (trace (snd sd))))
      as [[image url']|]; [|done].
    injection Ho as ->. exists image. split; [done|]. by eapply Hsel.
Qed.
End DarkInvariants.

(** ** How much an invocation can leak *)

Section Allocation.
Context (cv : OpenCV) (br : Browser) {St : Type}.

Lemma allocates_mono {A} (n k : nat) (m : M St A) :
  (n ≤ k)%nat -> allocates n m -> allocates k m.
Proof. intros Hnk Hm s. specialize (Hm s). lia. Qed.

Lemma allocates_bind {A B} (n k : nat) (m : M St A) (f : A -> M St B) :
  allocates n m -> (∀ a, allocates k (f a)) -> allocates (n + k) (m ≫= f).
Proof.
  intros Hm Hf s. rewrite bind_run. specialize (Hm s).
  destruct (m s) as [[a|e] s1]; cbn [fst snd] in *; [|lia].
  specialize (Hf a s1). lia.
Qed.

Lemma allocates_mret {A} (a : A) : allocates (St:=St) 0 (mret a).
Proof. intros s. cbn. lia. Qed.

Lemma allocates_throw {A} e : allocates (St:=St) (A:=A) 0 (throw e).
Proof. intros s. cbn. lia. Qed.

Lemma allocates_emit e : allocates (St:=St) 0 (emit e).
Proof. intros s. cbn. lia. Qed.

Lemma allocates_modify_state (f : St -> St) : allocates 0 (modify_state f).
Proof. intros s. cbn. lia. Qed.

Lemma size_insert_le (h : gmap handle Mat) x m :
  (size (<[x:=m]> h) ≤ size h + 1)%nat.
Proof.
  rewrite map_size_insert. destruct (h !! x); cbn; lia.
Qed.

Lemma size_insert_live (h : gmap handle Mat) x m :
  is_Some (h !! x) -> size (<[x:=m]> h) = size h.
Proof. apply map_size_insert_Some. Qed.

Lemma size_delete_le (h : gmap handle Mat) x : (size (delete x h) ≤ size h)%nat.
Proof.
  rewrite map_size_delete. destruct (h !! x); cbn; lia.
Qed.

Lemma allocates_cv_imread el : allocates (St:=St) 1 (cv_imread cv el).
Proof.
  intros [st w]. rewrite cv_imread_run.
  destruct (imread_sem cv el); cbn; [apply size_insert_le|lia].
Qed.

Lemma allocates_new_Mat : allocates (St:=St) 1 new_Mat.
Proof. intros [st w]. rewrite new_Mat_run. cbn. apply size_insert_le. Qed.

(** A call that writes to a destination allocates nothing: the
    destination is one of the matrices it is handed, which are live. *)
Lemma allocates_cv_do c :
  is_Some (destination c) -> allocates (St:=St) 0 (cv_do cv c).
Proof.
  intros [d Hd] [st w].
  unfold cv_do, cv_call, emit, modify_world, get_world, lift_res, throw,
    mbind, M_bind, mret, M_ret; cbn.
  destruct (forallb (live (heap w)) (operands c)) eqn:El; cbn; [|lia].
  destruct (call_sem cv c (heap w)); cbn; [|lia]. rewrite Hd. cbn.
  rewrite size_insert_live; [lia|].
  rewrite forallb_forall in El. apply live_true, El.
  destruct c; cbn in Hd |- *; try done; injection Hd as ->; tauto.
Qed.

Lemma allocates_cv_getStructuringElement shape ksize :
  allocates (St:=St) 1 (cv_getStructuringElement cv shape ksize).
Proof.
  intros [st w]. rewrite cv_getStructuringElement_run.
  destruct (call_sem cv _ _); cbn; [apply size_insert_le|lia].
Qed.

Lemma allocates_Mat_delete h : allocates (St:=St) 0 (Mat_delete h).
Proof.
  intros [st w].
  unfold Mat_delete, emit, modify_world, get_world, throw, mbind, M_bind; cbn.
  destruct (live (heap w) h); cbn; [|lia].
  pose proof (size_delete_le (heap w) h). lia.
Qed.

Lemma allocates_cv_imshow h : allocates (St:=St) 0 (cv_imshow cv h).
Proof.
  intros [st w].
  unfold cv_imshow, emit, modify_world, get_world, lift_res, throw, mbind,
    M_bind; cbn.
  destruct (heap w !! h) as [mat|]; cbn; [|lia].
  destruct (imshow_sem cv mat); cbn; lia.
Qed.

Lemma allocates_canvas_toDataURL : allocates (St:=St) 0 (canvas_toDataURL br).
Proof.
  intros [st w].
  unfold canvas_toDataURL, emit, modify_world, get_world, lift_res, throw,
    mbind, M_bind; cbn.
  destruct (canvasRef w) as [shown|]; cbn; [|lia].
  destruct (toDataURL_sem br shown); cbn; lia.
Qed.

Lemma allocates_try_catch_finally n (body : M St unit) handler fin :
  allocates n body -> (∀ e, allocates 0 (handler e)) -> allocates 0 fin ->
  allocates n (try_catch_finally body handler fin).
Proof.
  intros Hb Hh Hf s. unfold try_catch_finally. specialize (Hb s).
  destruct (body s) as [[[]|e] s1]; cbn [fst snd] in *.
  - specialize (Hf s1). destruct (fin s1) as [[[]|e] s3]; cbn in *; lia.
  - specialize (Hh e s1). destruct (handler e s1) as [r2 s2]; cbn in *.
    specialize (Hf s2). destruct (fin s2) as [[[]|e'] s3]; cbn in *; lia.
Qed.
End Allocation.

Section AllocationApp.
Context (cv : OpenCV) (br : Browser).

Lemma allocates_case_body c img dst : allocates 1 (App.case_body cv c img dst).
Proof.
  destruct c; cbn [App.case_body].
  1,2: apply (allocates_mono 0); [lia|]; by apply allocates_cv_do.
  1-4: apply (allocates_mono (0 + 0)); [lia|];
       apply allocates_bind; [|intros _]; by apply allocates_cv_do.
  apply (allocates_mono (0 + (0 + (1 + (0 + 0))))); [lia|].
  apply allocates_bind; [by apply allocates_cv_do|]. intros _.
  apply allocates_bind; [by apply allocates_cv_do|]. intros _.
  apply allocates_bind; [apply allocates_cv_getStructuringElement|].
  intros kernel.
  apply allocates_bind; [by apply allocates_cv_do|]. intros _.
  apply allocates_Mat_delete.
Qed.

Lemma allocates_dispatch t img dst : allocates 1 (App.dispatch cv t img dst).
Proof.
  unfold App.dispatch. destruct (App.switch_on t).
  - apply allocates_case_body.
  - apply (allocates_mono 0); [lia|apply allocates_mret].
Qed.

Lemma allocates_get_state {A} n (f : App.AppState -> M App.AppState A) :
  (∀ st, allocates n (f st)) -> allocates n (get_state ≫= f).
Proof. intros Hf [st w]. rewrite bind_run. apply (Hf st (st, w)). Qed.

Lemma allocates_setter (e : Event) (f : App.AppState -> App.AppState) :
  allocates 0 (emit e;; modify_state f).
Proof.
  apply (allocates_bind 0 0); [apply allocates_emit|].
  intros _. apply allocates_modify_state.
Qed.

Lemma allocates_processImage_try image :
  allocates 3 (App.processImage_try cv br image).
Proof.
  unfold App.processImage_try. apply allocates_get_state. intros st.
  apply (allocates_mono (1 + (1 + (1 + (0 + (0 + (0 + (0 + 0)))))))); [lia|].
  apply allocates_bind; [apply allocates_cv_imread|]. intros img.
  apply allocates_bind; [apply allocates_new_Mat|]. intros dst.
  apply allocates_bind; [apply allocates_dispatch|]. intros _.
  apply allocates_bind; [apply allocates_cv_imshow|]. intros _.
  apply allocates_bind; [apply allocates_canvas_toDataURL|]. intros url.
  apply allocates_bind; [apply allocates_setter|]. intros _.
  apply allocates_bind; [apply allocates_Mat_delete|]. intros _.
  apply allocates_Mat_delete.
Qed.

(** An invocation leaves at most three more live matrices than it found. *)
Lemma allocates_processImage : allocates 3 (App.processImage cv br).
Proof.
  intros [st w]. unfold App.processImage.
  rewrite bind_run. cbn [get_state fst snd].
  rewrite bind_run. cbn [get_world fst snd].
  destruct (imageRef w) as [image|]; [|cbn; lia].
  destruct (App.guard_fails st w); [cbn; lia|].
  apply (allocates_bind 0 3 (App.setIsProcessing true)); [apply allocates_setter|].
  intros _. apply allocates_try_catch_finally;
    [apply allocates_processImage_try|intros; apply allocates_emit
    |apply allocates_setter].
Qed.

(** X14: between two events the number of live native matrices is at most
    three times the number of errors logged so far: a run in which a step
    throws leaks at most the source, the destination and the structuring
    element, and nothing else ever leaks. *)
Theorem leak_bounded_by_errors s :
  App.reachable cv br s ->
  (size (heap (snd s)) ≤ 3 * length (errors (trace (snd s))))%nat.
Proof.
  induction 1 as [|a [st w] _ IH]; [done|]. cbn [snd] in IH.
  destruct (step_world cv br a (st, w)) as (-> & -> & _).
  assert (a = App.ClickProcess ∨ a ≠ App.ClickProcess) as [->|Ha]
    by (destruct a; (by left) || (by right)).
  - destruct (click_process_cases cv br st w) as [->|(_ & Hg & ->)]; [done|].
    pose proof (allocates_processImage (st, w)) as Hsz. cbn [snd] in Hsz.
    destruct (guard_passes _ _ Hg) as (_ & _ & [image Him] & _).
    destruct (processImage_run cv br st w image Hg Him)
      as (st' & w' & evs & Hrun & Ht & _ & _ & Hcases).
    rewrite Hrun in Hsz |- *. cbn [fst snd] in *. rewrite Ht.
    unfold errors in *. rewrite !omap_app, !length_app.
    destruct Hcases as [(? & ? & _ & -> & _)|(pre & e & -> & _)]; [lia|].
    rewrite omap_app, length_app. cbn. lia.
  - destruct (handler_other_run cv br a st w Ha) as (evs & -> & -> & _).
    unfold errors in *. rewrite omap_app, length_app. lia.
Qed.
End AllocationApp.

(** ** Concrete runs for the further properties *)

Lemma sample_reached_reachable :
  App.reachable (sample_cv never) sample_br sample_reached.
Proof. repeat apply App.reachable_step. apply App.reachable_mounted. Defined.

Lemma sample_processed_reachable :
  App.reachable (sample_cv never) sample_br sample_processed.
Proof. apply App.reachable_step, sample_reached_reachable. Defined.

(** X1 in the state reached by a drop, the end of the read and the choice
    of a technique. *)
Lemma reachable_not_processing_witness :
  App.reachable (sample_cv never) sample_br sample_reached
  ∧ App.isProcessing (fst sample_reached) = false.
Proof.
  split; [exact sample_reached_reachable|].
  exact (proj1 (reachable_not_processing (sample_cv never) sample_br
                  sample_reached sample_reached_reachable)).
Defined.

(** X2 in the same state. *)
Lemma guard_agrees_with_button_witness :
  App.reachable (sample_cv never) sample_br sample_reached
  ∧ App.guard_fails (fst sample_reached) (snd sample_reached)
    = App.process_disabled (fst sample_reached).
Proof.
  split; [exact sample_reached_reachable|].
  exact (proj1 (guard_agrees_with_button (sample_cv never) sample_br
                  sample_reached sample_reached_reachable)).
Defined.

(** X3 after a run of the Canny clause in which nothing throws. *)
Lemma no_leak_without_error_witness :
  App.reachable (sample_cv never) sample_br sample_processed
  ∧ errors (trace (snd sample_processed)) = []
  ∧ heap (snd sample_processed) = ∅.
Proof.
  split; [exact sample_processed_reachable|].
  assert (He : errors (trace (snd sample_processed)) = []) by (by vm_compute).
  split; [exact He|].
  exact (no_leak_without_error (sample_cv never) sample_br sample_processed
           sample_processed_reachable He).
Defined.

(** X4 on the heap a throwing run has left: its source matrix survives
    the next run. *)
Lemma processImage_keeps_live_witness :
  is_Some (heap (snd (snd throwing_run)) !! 1%positive)
  ∧ is_Some (heap (snd (snd (App.processImage (sample_cv never) sample_br
                               (fst (sample_state "Median Filter"),
                                snd (snd throwing_run)))))
             !! 1%positive).
Proof.
  assert (Hl : is_Some (heap (snd (snd throwing_run)) !! 1%positive))
    by (eexists; by vm_compute).
  split; [exact Hl|].
  exact (processImage_keeps_live (sample_cv never) sample_br
           (fst (sample_state "Median Filter")) (snd (snd throwing_run))
           1%positive Hl).
Defined.

(** X6 in the state reached after the choice of the third radio input. *)
Lemma radio_group_exclusive_witness :
  App.reachable (sample_cv never) sample_br sample_reached
  ∧ length (List.filter (radio_checked (fst sample_reached)) App.radios)
    = (if truthy (App.selectedTechnique (fst sample_reached)) then 1 else 0)%nat.
Proof.
  split; [exact sample_reached_reachable|].
  exact (proj1 (radio_group_exclusive (sample_cv never) sample_br
                  sample_reached sample_reached_reachable)).
Defined.

(** X7 with a technique that is none of the seven and a library that shows
    the empty matrix. *)
Lemma unknown_technique_shows_empty_witness :
  App.guard_fails (fst (sample_state "Sepia Tone")) sample_world = false
  ∧ ("Sepia Tone" ∉ App.radios)
  ∧ events (App.processImage (sample_cv never) sample_br)
      (sample_state "Sepia Tone")
    = [ESetIsProcessing true; EImread "data:image/png;base64,QUJD"; ENewMat;
       EImshow 2;
       EToDataURL; ESetProcessedImage (Some "data:image/png;base64,AAAA");
       EDelete 1;
       EDelete 2; ESetIsProcessing false]
  ∧ canvasRef (snd (snd (App.processImage (sample_cv never) sample_br
                           (sample_state "Sepia Tone"))))
    = Some (Some (mkMat 0 0 0 []))
  ∧ App.processedImage
      (fst (snd (App.processImage (sample_cv never) sample_br
                   (sample_state "Sepia Tone"))))
    = Some "data:image/png;base64,AAAA".
Proof.
  assert (Hn : "Sepia Tone" ∉ App.radios)
    by (apply (bool_decide_unpack _); by vm_compute).
  split; [reflexivity|]. split; [exact Hn|].
  exact (proj2 (proj2 (proj2 (proj2 (proj2
    (unknown_technique_shows_empty (sample_cv never) sample_br
       (fst (sample_state "Sepia Tone")) sample_world eq_refl Hn)))
    _ _ eq_refl eq_refl))
    _ eq_refl eq_refl).
Defined.

(** X8 after a run of the Canny clause. *)
Lemma result_is_of_current_image_witness :
  App.reachable (sample_cv never) sample_br sample_processed
  ∧ App.processedImage (fst sample_processed)
    = Some "data:image/png;base64,AAAA"
  ∧ ∃ image,
      origin (trace (snd sample_processed))
        = Some (image, "data:image/png;base64,AAAA")
      ∧ App.selectedImage (fst sample_processed) = Some image.
Proof.
  split; [exact sample_processed_reachable|].
  assert (Hp : App.processedImage (fst sample_processed)
               = Some "data:image/png;base64,AAAA") by (by vm_compute).
  split; [exact Hp|].
  exact (result_is_of_current_image (sample_cv never) sample_br
           sample_processed "data:image/png;base64,AAAA"
           sample_processed_reachable Hp).
Defined.

(** X14 in a run that leaks: the source, the destination and the
    structuring element stay live behind the one logged error. *)
Lemma leak_bounded_by_errors_witness :
  App.reachable (sample_cv on_morphologyEx) sample_br sample_leaked
  ∧ (size (heap (snd sample_leaked))
     ≤ 3 * length (errors (trace (snd sample_leaked))))%nat.
Proof.
  assert (Hr : App.reachable (sample_cv on_morphologyEx) sample_br sample_leaked)
    by (repeat apply App.reachable_step; apply App.reachable_mounted).
  split; [exact Hr|].
  exact (leak_bounded_by_errors (sample_cv on_morphologyEx) sample_br
           sample_leaked Hr).
Defined.

(** The bound is attained there: three matrices behind one error. *)
Example leak_attains_bound :
  size (heap (snd sample_leaked)) = 3%nat
  ∧ length (errors (trace (snd sample_leaked))) = 1%nat.
Proof. by vm_compute. Qed.
